(** * Scroll synchronisation between the editor and the Markdown preview

    A shallow embedding of the two controllers of the extension:

    - [Host]   : [ScrollSyncManager]
                 (src/services/scroll-sync/scroll-sync-manager.ts)
    - [Render] : [IntersectionBasedScrollSync]
                 (src/webview/modules/scroll-sync.js)

    Both are JavaScript objects whose methods run to completion on a
    single-threaded event loop and talk to the outside through calls
    ([postMessage], [revealRange], [scrollIntoView]) and timers
    ([setTimeout] / [clearTimeout]).  Methods are embedded as computations
    in a small state / output / exception monad over a [World]: the
    object's fields (and the globals it reads), the clock, and the table
    of pending timers.  [console.*] calls do not influence behaviour and
    are left out. *)

From Stdlib Require Import ZArith QArith List Bool Lia Arith.
Import ListNotations.
Local Open Scope Z_scope.

(* ================================================================== *)
(** ** JavaScript runtime: outcomes, timers, and the method monad      *)
(* ================================================================== *)

(** The only run-time error the two classes can raise by themselves is
    a property access on [undefined] / [null]; [HostError] stands for an
    exception raised by a VS Code API call. *)
Inductive JsError : Type :=
| TypeError
| HostError.

Inductive Outcome (A : Type) : Type :=
| Returned (a : A)
| Thrown (e : JsError).
Arguments Returned {A} a.
Arguments Thrown {A} e.

Section Runtime.
(** [S]: the fields of the object together with the globals it reads;
    [K]: the closures handed to [setTimeout]; [E]: outbound calls. *)
Variables (S K E : Type).

Record Timer : Type := mkTimer {
  handle : nat;       (* the value returned by setTimeout *)
  due : Z;            (* clock value (ms) at which the callback runs *)
  callback : K
}.

Record World : Type := mkWorld {
  fields : S;
  now : Z;
  nextHandle : nat;
  pending : list Timer
}.

Definition M (A : Type) : Type := World -> Outcome A * World * list E.

Definition ret {A} (a : A) : M A := fun w => (Returned a, w, []).

Definition bind {A B} (m : M A) (k : A -> M B) : M B :=
  fun w =>
    match m w with
    | (Returned a, w1, out1) =>
        match k a w1 with
        | (r, w2, out2) => (r, w2, out1 ++ out2)
        end
    | (Thrown e, w1, out1) => (Thrown e, w1, out1)
    end.

Definition throw {A} (e : JsError) : M A := fun w => (Thrown e, w, []).

(** [try { body } catch (error) { handler }] *)
Definition try_catch (body : M unit) (handler : JsError -> M unit) : M unit :=
  fun w =>
    match body w with
    | (Returned a, w1, out1) => (Returned a, w1, out1)
    | (Thrown e, w1, out1) =>
        match handler e w1 with
        | (r, w2, out2) => (r, w2, out1 ++ out2)
        end
    end.

Definition gets {A} (f : S -> A) : M A := fun w => (Returned (f (fields w)), w, []).

Definition modify (f : S -> S) : M unit :=
  fun w => (Returned tt, mkWorld (f (fields w)) (now w) (nextHandle w) (pending w), []).

Definition emit (e : E) : M unit := fun w => (Returned tt, w, [e]).

(** [setTimeout(cb, delay)]: registers the callback and returns a fresh
    handle.  Handles are never reused. *)
Definition setTimeout (cb : K) (delay : Z) : M nat :=
  fun w =>
    (Returned (nextHandle w),
     mkWorld (fields w) (now w) (Datatypes.S (nextHandle w))
             (pending w ++ [mkTimer (nextHandle w) (now w + delay) cb]),
     []).

Definition cancel (h : nat) (ts : list Timer) : list Timer :=
  filter (fun t => negb (Nat.eqb (handle t) h)) ts.

(** [clearTimeout(h)]: a no-op when [h] has already run or been cleared. *)
Definition clearTimeout (h : nat) : M unit :=
  fun w => (Returned tt, mkWorld (fields w) (now w) (nextHandle w) (cancel h (pending w)), []).

(** *** The event loop

    A turn of the loop runs the listener of an external event, or the
    callback of a pending timer whose due time has come, or lets time
    pass.  A timer never runs before its due time; it may run late.
    [settled w]: every timer that is due has run. *)

Definition find_timer (h : nat) (ts : list Timer) : option Timer :=
  find (fun t => Nat.eqb (handle t) h) ts.

Definition is_due (t : Timer) (w : World) : bool := due t <=? now w.

Definition settled (w : World) : bool :=
  forallb (fun t => now w <? due t) (pending w).

Definition wait (t : Z) (w : World) : World :=
  mkWorld (fields w) t (nextHandle w) (pending w).

(** Taking timer [tm] out of the table, just before its callback runs. *)
Definition dequeue (tm : Timer) (w : World) : World :=
  mkWorld (fields w) (now w) (nextHandle w) (cancel (handle tm) (pending w)).

End Runtime.

Arguments mkTimer {K} handle due callback.
Arguments handle {K} t.
Arguments due {K} t.
Arguments callback {K} t.
Arguments mkWorld {S K} fields now nextHandle pending.
Arguments fields {S K} w.
Arguments now {S K} w.
Arguments nextHandle {S K} w.
Arguments pending {S K} w.
Arguments ret {S K E A} a.
Arguments bind {S K E A B} m k.
Arguments throw {S K E A} e.
Arguments try_catch {S K E} body handler.
Arguments gets {S K E A} f.
Arguments modify {S K E} f.
Arguments emit {S K E} e.
Arguments setTimeout {S K E} cb delay.
Arguments clearTimeout {S K E} h.
Arguments cancel {K} h ts : simpl never.
Arguments find_timer {K} h ts.
Arguments is_due {S K} t w.
Arguments settled {S K} w.
Arguments wait {S K} t w.
Arguments dequeue {S K} tm w.

Declare Scope js_scope.
Delimit Scope js_scope with js.
Notation "x <- m ;; k" := (bind m (fun x => k))
  (at level 61, m at next level, right associativity) : js_scope.
Notation "m ;; k" := (bind m (fun _ => k))
  (at level 61, right associativity) : js_scope.

(** [if (c) { m }] with no else branch. *)
Definition when {S K E} (c : bool) (m : M S K E unit) : M S K E unit :=
  if c then m else ret tt.

(** Truthiness of a timer handle stored in a field ([null] is falsy, a
    handle returned by [setTimeout] is truthy). *)
Definition truthy {A} (o : option A) : bool :=
  match o with Some _ => true | None => false end.

(** Which side started the synchronisation in progress. *)
Inductive Source : Type := editor | preview.

Definition is_source (s : Source) (o : option Source) : bool :=
  match o, s with
  | Some editor, editor => true
  | Some preview, preview => true
  | _, _ => false
  end.

(** Comparison of pixel offsets.  Offsets are finite doubles; their
    order is the order of the rationals they denote. *)
Definition Qlt_bool (x y : Q) : bool := negb (Qle_bool y x).

(** [Fresh n ts]: the timers of the table [ts] have pairwise distinct
    handles, all handed out before [n]. *)
Definition Fresh {K} (n : nat) (ts : list (Timer K)) : Prop :=
  NoDup (map handle ts) /\ forall tm, In tm ts -> (handle tm < n)%nat.

(** A method keeps the timer table fresh. *)
Definition keeps_fresh {S K E A} (m : M S K E A) : Prop :=
  forall w r w' out,
    Fresh (nextHandle w) (pending w) -> m w = (r, w', out) ->
    Fresh (nextHandle w') (pending w').

(** Unfolding the monad so that a method applied to a world computes. *)
Ltac js_unfold :=
  unfold when, bind, ret, gets, modify, emit, throw, try_catch, setTimeout, clearTimeout.

(** Case analysis along the branches of a method. *)
Ltac split_run :=
  repeat (cbn;
    match goal with
    | |- context [if ?b then _ else _] => destruct b eqn:?
    | |- context [match ?x with Some _ => _ | None => _ end] => destruct x eqn:?
    | |- context [match ?x with [] => _ | _ :: _ => _ end] => destruct x eqn:?
    end); cbn.

(** Membership in a timer table after [clearTimeout] / [setTimeout]. *)
Ltac inv_tac :=
  repeat match goal with
  | H : In _ (cancel _ _) |- _ =>
      let H' := fresh "Hne" in
      unfold cancel at 1 in H; apply filter_In in H; destruct H as [H H'];
      apply negb_true_iff in H'; apply Nat.eqb_neq in H'
  | H : In _ (_ ++ [_]) |- _ =>
      apply in_app_iff in H; destruct H as [H | [H | []]]; [| symmetry in H]
  | H : In _ [] |- _ => destruct H
  | H : Some _ = Some _ |- _ => inversion H; clear H; subst
  | H : _ /\ _ |- _ => destruct H
  end.

(* ================================================================== *)
(** ** Render side: [IntersectionBasedScrollSync] (scroll-sync.js)     *)
(* ================================================================== *)

Module Render.

(** A DOM element carrying a [data-line] attribute.  [dataLine] is the
    integer [parseInt(el.dataset.line)]; the renderer writes the
    attribute with [lineNumber.toString()]. *)
Record Node : Type := mkNode { nodeId : nat; dataLine : Z }.

(** Value stored in [this.visibleElements]. *)
Record Info : Type := mkInfo {
  element : Node;
  ratio : Q;
  top : Q;
  bottom : Q
}.

(** An [IntersectionObserverEntry]. *)
Record Entry : Type := mkEntry {
  target : Node;
  isIntersecting : bool;
  intersectionRatio : Q;
  rect_top : Q;          (* entry.boundingClientRect.top *)
  rect_bottom : Q        (* entry.boundingClientRect.bottom *)
}.

(** *** [Map] keyed by line number

    A JavaScript [Map] iterates in insertion order; [set] on a present
    key overwrites the value in place, on an absent key appends. *)
Definition LineMap : Type := list (Z * Info).

Fixpoint map_get (k : Z) (m : LineMap) : option Info :=
  match m with
  | [] => None
  | (k', v) :: m' => if k' =? k then Some v else map_get k m'
  end.

Fixpoint map_set (k : Z) (v : Info) (m : LineMap) : LineMap :=
  match m with
  | [] => [(k, v)]
  | (k', v') :: m' => if k' =? k then (k', v) :: m' else (k', v') :: map_set k v m'
  end.

Definition map_delete (k : Z) (m : LineMap) : LineMap :=
  filter (fun kv => negb (fst kv =? k)) m.

(** The instance fields, followed by the two globals the methods read:
    the line-tagged elements of [document] in document order, and
    whether [window.vscode.postMessage] is available. *)
Record Page : Type := mkPage {
  visibleElements : LineMap;
  currentTopLine : Z;
  isSyncing : bool;
  syncSource : option Source;
  isEnabled : bool;
  syncTimeout : option nat;
  scrollTimeout : option nat;
  observer : option (list Node);   (* [null] after destroy(); else the observed elements *)
  document : list Node;
  vscode : bool
}.

Definition set_visibleElements v p :=
  mkPage v (currentTopLine p) (isSyncing p) (syncSource p) (isEnabled p)
         (syncTimeout p) (scrollTimeout p) (observer p) (document p) (vscode p).
Definition set_currentTopLine v p :=
  mkPage (visibleElements p) v (isSyncing p) (syncSource p) (isEnabled p)
         (syncTimeout p) (scrollTimeout p) (observer p) (document p) (vscode p).
Definition set_isSyncing v p :=
  mkPage (visibleElements p) (currentTopLine p) v (syncSource p) (isEnabled p)
         (syncTimeout p) (scrollTimeout p) (observer p) (document p) (vscode p).
Definition set_syncSource v p :=
  mkPage (visibleElements p) (currentTopLine p) (isSyncing p) v (isEnabled p)
         (syncTimeout p) (scrollTimeout p) (observer p) (document p) (vscode p).
Definition set_isEnabled v p :=
  mkPage (visibleElements p) (currentTopLine p) (isSyncing p) (syncSource p) v
         (syncTimeout p) (scrollTimeout p) (observer p) (document p) (vscode p).
Definition set_syncTimeout v p :=
  mkPage (visibleElements p) (currentTopLine p) (isSyncing p) (syncSource p) (isEnabled p)
         v (scrollTimeout p) (observer p) (document p) (vscode p).
Definition set_scrollTimeout v p :=
  mkPage (visibleElements p) (currentTopLine p) (isSyncing p) (syncSource p) (isEnabled p)
         (syncTimeout p) v (observer p) (document p) (vscode p).
Definition set_observer v p :=
  mkPage (visibleElements p) (currentTopLine p) (isSyncing p) (syncSource p) (isEnabled p)
         (syncTimeout p) (scrollTimeout p) v (document p) (vscode p).
Definition set_document v p :=
  mkPage (visibleElements p) (currentTopLine p) (isSyncing p) (syncSource p) (isEnabled p)
         (syncTimeout p) (scrollTimeout p) (observer p) v (vscode p).
Definition set_vscode v p :=
  mkPage (visibleElements p) (currentTopLine p) (isSyncing p) (syncSource p) (isEnabled p)
         (syncTimeout p) (scrollTimeout p) (observer p) (document p) v.

(** The three closures the class passes to [setTimeout]. *)
Inductive Callback : Type :=
| ReleaseSync       (* () => { isSyncing = false; syncSource = null } *)
| TrailingScroll    (* () => { scrollTimeout = null; syncScrollToEditor() } *)
| Reobserve.        (* () => { observeElements() } *)

Inductive Effect : Type :=
| PostMessage (line : Z)          (* vscode.postMessage({command: 'previewScrolledToLine', line}) *)
| ScrollIntoView (el : Node)      (* el.scrollIntoView({behavior: 'instant', block: 'start'}) *)
| Observe (el : Node)             (* observer.observe(el) *)
| Disconnect.                     (* observer.disconnect() *)

Definition SYNC_BLOCK_MS : Z := 30.
Definition SCROLL_DEBOUNCE_MS : Z := 16.

Definition W : Type := World Page Callback.
Definition Method (A : Type) : Type := M Page Callback Effect A.

Local Open Scope js_scope.

(** State of a freshly constructed object: the constructor's field
    initialisers, and the [IntersectionObserver] created by [init],
    observing the line-tagged elements of the document. *)
Definition initial (doc : list Node) (api : bool) : Page :=
  mkPage [] 0 false None true None None (Some doc) doc api.

(** [elements.forEach(el => this.observer.observe(el))], with the
    observer present *)
Fixpoint observe_each (elements : list Node) : Method unit :=
  match elements with
  | [] => ret tt
  | el :: rest => emit (Observe el) ;; observe_each rest
  end.

(** [observeElements()] *)
Definition observeElements : Method unit :=
  elements <- gets document ;;
  match elements with
  | [] => ret tt
  | _ =>
      obs <- gets observer ;;
      match obs with
      | None => throw TypeError          (* this.observer is null *)
      | Some seen =>
          modify (set_observer (Some (seen ++ elements))) ;;
          observe_each elements
      end
  end.

(** [handleIntersection(entries)] *)
Definition handleIntersection_entry (m : LineMap) (entry : Entry) : LineMap :=
  let lineNumber := dataLine (target entry) in
  if isIntersecting entry
  then map_set lineNumber
               (mkInfo (target entry) (intersectionRatio entry)
                       (rect_top entry) (rect_bottom entry)) m
  else map_delete lineNumber m.

Definition handleIntersection (entries : list Entry) : Method unit :=
  modify (fun p =>
    set_visibleElements (fold_left handleIntersection_entry entries (visibleElements p)) p).

(** [getTopVisibleLine()].  The accumulator is the pair of locals
    [(topLine, minTop)]; [minTop = None] stands for [Infinity]. *)
Definition below_minTop (t : Q) (minTop : option Q) : bool :=
  match minTop with
  | None => true
  | Some m => Qlt_bool t m
  end.

Definition top_step (acc : option Z * option Q) (kv : Z * Info) : option Z * option Q :=
  let '(lineNumber, info) := kv in
  if Qle_bool 0 (top info) && below_minTop (top info) (snd acc)
  then (Some lineNumber, Some (top info))
  else acc.

Definition getTopVisibleLine (p : Page) : option Z :=
  match visibleElements p with
  | [] => None                                       (* size === 0 *)
  | es => fst (fold_left top_step es (None, None))
  end.

(** [sendScrollMessage(line)] *)
Definition sendScrollMessage (line : Z) : Method unit :=
  modify (set_isSyncing true) ;;
  modify (set_syncSource (Some preview)) ;;
  api <- gets vscode ;;
  when api (emit (PostMessage line)) ;;
  old <- gets syncTimeout ;;
  match old with
  | Some h => clearTimeout h
  | None => ret tt
  end ;;
  h <- setTimeout ReleaseSync SYNC_BLOCK_MS ;;
  modify (set_syncTimeout (Some h)).

(** [syncScrollToEditor()] *)
Definition syncScrollToEditor : Method unit :=
  topLine <- gets getTopVisibleLine ;;
  cur <- gets currentTopLine ;;
  match topLine with
  | Some l =>
      if negb (l =? cur)
      then modify (set_currentTopLine l) ;; sendScrollMessage l
      else ret tt
  | None => ret tt
  end.

(** [handleScroll()] *)
Definition handleScroll : Method unit :=
  enabled <- gets isEnabled ;;
  if negb enabled then ret tt else
  syncing <- gets isSyncing ;;
  src <- gets syncSource ;;
  if syncing && is_source editor src then ret tt else
  st <- gets scrollTimeout ;;
  match st with
  | Some h => clearTimeout h
  | None => ret tt
  end ;;
  when (negb (truthy st)) syncScrollToEditor ;;
  h <- setTimeout TrailingScroll SCROLL_DEBOUNCE_MS ;;
  modify (set_scrollTimeout (Some h)).

(** [document.querySelector('[data-line="<line>"]')] *)
Definition querySelector_line (line : Z) (doc : list Node) : option Node :=
  find (fun el => dataLine el =? line) doc.
Arguments querySelector_line line doc : simpl never.

(** [scrollToLine(line)] *)
Definition scrollToLine (line : Z) : Method unit :=
  enabled <- gets isEnabled ;;
  if negb enabled then ret tt else
  syncing <- gets isSyncing ;;
  src <- gets syncSource ;;
  if syncing && is_source preview src then ret tt else
  el <- gets (fun p => querySelector_line line (document p)) ;;
  match el with
  | None => ret tt
  | Some element =>
      modify (set_isSyncing true) ;;
      modify (set_syncSource (Some editor)) ;;
      modify (set_currentTopLine line) ;;
      emit (ScrollIntoView element) ;;
      old <- gets syncTimeout ;;
      match old with
      | Some h => clearTimeout h
      | None => ret tt
      end ;;
      h <- setTimeout ReleaseSync SYNC_BLOCK_MS ;;
      modify (set_syncTimeout (Some h))
  end.

(** [reobserveElements()] *)
Definition reobserveElements : Method unit :=
  obs <- gets observer ;;
  match obs with
  | None => throw TypeError              (* this.observer.disconnect() on null *)
  | Some _ =>
      emit Disconnect ;;
      modify (set_observer (Some [])) ;;
      modify (set_visibleElements []) ;;
      _ <- setTimeout Reobserve 100 ;;
      ret tt
  end.

(** [enable()] *)
Definition enable : Method unit :=
  modify (set_isEnabled true).

(** [disable()] *)
Definition disable : Method unit :=
  modify (set_isEnabled false) ;;
  modify (set_isSyncing false) ;;
  modify (set_syncSource None) ;;
  sy <- gets syncTimeout ;;
  match sy with
  | Some h => clearTimeout h ;; modify (set_syncTimeout None)
  | None => ret tt
  end ;;
  sc <- gets scrollTimeout ;;
  match sc with
  | Some h => clearTimeout h ;; modify (set_scrollTimeout None)
  | None => ret tt
  end.

(** [destroy()] *)
Definition destroy : Method unit :=
  obs <- gets observer ;;
  match obs with
  | Some _ => emit Disconnect ;; modify (set_observer None)
  | None => ret tt
  end ;;
  sy <- gets syncTimeout ;;
  match sy with
  | Some h => clearTimeout h ;; modify (set_syncTimeout None)
  | None => ret tt
  end ;;
  sc <- gets scrollTimeout ;;
  match sc with
  | Some h => clearTimeout h ;; modify (set_scrollTimeout None)
  | None => ret tt
  end ;;
  modify (set_visibleElements []) ;;
  modify (set_isEnabled false) ;;
  modify (set_isSyncing false) ;;
  modify (set_syncSource None).

(** Messages posted by the extension that the class listens to; any
    other [command] falls through the [switch]. *)
Inductive Message : Type :=
| syncScrollToLine (line : Z)
| updateScrollSyncState (enabled : bool)
| updateContent
| otherCommand.

(** [handleMessage(event)] *)
Definition handleMessage (message : Message) : Method unit :=
  match message with
  | syncScrollToLine line => scrollToLine line
  | updateScrollSyncState enabled => if enabled then enable else disable
  | updateContent => reobserveElements
  | otherCommand => ret tt
  end.

(** Bodies of the timer closures. *)
Definition run_callback (cb : Callback) : Method unit :=
  match cb with
  | ReleaseSync =>
      modify (set_isSyncing false) ;;
      modify (set_syncSource None)
  | TrailingScroll =>
      modify (set_scrollTimeout None) ;;
      syncScrollToEditor
  | Reobserve => observeElements
  end.

(** *** The page's event loop *)

Inductive Action : Type :=
| Fire (h : nat)                          (* the timer with handle [h] runs *)
| Wait (t : Z)                            (* the clock moves to [t] *)
| OnScroll                                (* window 'scroll' listener *)
| OnIntersection (entries : list Entry)   (* IntersectionObserver callback *)
| OnMessage (message : Message)           (* window 'message' listener *)
| Call_scrollToLine (line : Z)            (* direct calls from the page's main script *)
| Call_enable
| Call_disable
| Call_destroy
| DomReplaced (doc : list Node)           (* the content element is re-rendered *)
| BridgeChanged (api : bool).             (* window.vscode becomes (un)available *)

(** Running a listener.  An exception that escapes it is reported by
    the browser; the fields keep the values they had when it was thrown. *)
Definition exec (m : Method unit) (w : W) : W * list Effect :=
  match m w with
  | (_, w', out) => (w', out)
  end.

Definition update_globals (f : Page -> Page) (w : W) : W * list Effect :=
  (mkWorld (f (fields w)) (now w) (nextHandle w) (pending w), []).

(** One turn of the event loop; [None] when the action is not enabled. *)
Definition step (a : Action) (w : W) : option (W * list Effect) :=
  match a with
  | Fire h =>
      match find_timer h (pending w) with
      | Some tm =>
          if is_due tm w
          then Some (exec (run_callback (callback tm)) (dequeue tm w))
          else None
      | None => None
      end
  | Wait t => if now w <=? t then Some (wait t w, []) else None
  | OnScroll => Some (exec handleScroll w)
  | OnIntersection entries => Some (exec (handleIntersection entries) w)
  | OnMessage message => Some (exec (handleMessage message) w)
  | Call_scrollToLine line => Some (exec (scrollToLine line) w)
  | Call_enable => Some (exec enable w)
  | Call_disable => Some (exec disable w)
  | Call_destroy => Some (exec destroy w)
  | DomReplaced doc => Some (update_globals (set_document doc) w)
  | BridgeChanged api => Some (update_globals (set_vscode api) w)
  end.

(** The world right after [new IntersectionBasedScrollSync()] at clock
    value [t0]; browsers hand out timer handles from 1. *)
Definition start (doc : list Node) (api : bool) (t0 : Z) : W :=
  mkWorld (initial doc api) t0 1%nat [].

Inductive reachable : W -> Prop :=
| reach_start doc api t0 : reachable (start doc api t0)
| reach_step w a w' out : reachable w -> step a w = Some (w', out) -> reachable w'.

(** [steps w w']: the loop takes [w] to [w'] in zero or more turns. *)
Inductive steps : W -> W -> Prop :=
| steps_refl w : steps w w
| steps_next w a w1 out w' : step a w = Some (w1, out) -> steps w1 w' -> steps w w'.

(** *** Notions used to state the properties of the page *)

(** [scan_ok seen acc]: the locals [(topLine, minTop)] are right for the
    entries [seen] visited so far. *)
Definition scan_ok (seen : LineMap) (acc : option Z * option Q) : Prop :=
  match acc with
  | (None, None) => forall l i, In (l, i) seen -> ~ (0 <= top i)%Q
  | (Some l, Some t) =>
      (exists i, In (l, i) seen /\ top i = t) /\
      (0 <= t)%Q /\
      (forall l' i', In (l', i') seen -> (0 <= top i')%Q -> (t <= top i')%Q)
  | _ => False
  end.

(** What every world of the loop satisfies: timer handles are older than
    the next one to be handed out; a pending timer releases the lock
    exactly when [syncTimeout] holds its handle, and is the trailing
    scroll call exactly when [scrollTimeout] does; a release timer is
    due within the block window; and while the lock is held its release
    timer is pending. *)
Record Inv (w : W) : Prop := mkInv {
  inv_fresh : forall tm, In tm (pending w) -> (handle tm < nextHandle w)%nat;
  inv_sync_stored : forall h, syncTimeout (fields w) = Some h -> (h < nextHandle w)%nat;
  inv_scroll_stored : forall h, scrollTimeout (fields w) = Some h -> (h < nextHandle w)%nat;
  inv_release : forall tm, In tm (pending w) ->
      callback tm = ReleaseSync -> syncTimeout (fields w) = Some (handle tm);
  inv_release_only : forall tm, In tm (pending w) ->
      syncTimeout (fields w) = Some (handle tm) -> callback tm = ReleaseSync;
  inv_trailing : forall tm, In tm (pending w) ->
      callback tm = TrailingScroll -> scrollTimeout (fields w) = Some (handle tm);
  inv_trailing_only : forall tm, In tm (pending w) ->
      scrollTimeout (fields w) = Some (handle tm) -> callback tm = TrailingScroll;
  inv_window : forall tm, In tm (pending w) -> callback tm = ReleaseSync ->
      due tm <= now w + SYNC_BLOCK_MS;
  inv_lock : isSyncing (fields w) = true ->
             exists h d, syncTimeout (fields w) = Some h /\
                         In (mkTimer h d ReleaseSync) (pending w)
}.

(** [Tracks h d w]: in [w], the release timer with handle [h] and due
    time [d] either still guards the lock, or the lock is free, or a
    timer set later has taken over. *)
Record Tracks (h : nat) (d : Z) (w : W) : Prop := mkTracks {
  tr_fresh : (h < nextHandle w)%nat;
  tr_newer : forall h', syncTimeout (fields w) = Some h' -> (h <= h')%nat;
  tr_held : syncTimeout (fields w) = Some h -> isSyncing (fields w) = true ->
            In (mkTimer h d ReleaseSync) (pending w)
}.

(** The record [handleIntersection] stores for an intersecting entry. *)
Definition info_of (e : Entry) : Info :=
  mkInfo (target e) (intersectionRatio e) (rect_top e) (rect_bottom e).

(** The world after one turn, unchanged when the action is not enabled. *)
Definition after (a : Action) (w : W) : W :=
  match step a w with
  | Some (w', _) => w'
  | None => w
  end.

(** Sample values for the examples below. *)
Definition node (l : Z) : Node := mkNode (Z.to_nat l) l.
Definition info_at (l : Z) (t : Q) : Info := mkInfo (node l) 1 t (t + 20).
Definition sample_set : LineMap :=
  [(3, info_at 3 50); (7, info_at 7 (-10)); (9, info_at 9 5)].
Definition sample_page : Page :=
  set_visibleElements sample_set (initial [node 3; node 7; node 9] true).

Definition above_top_world : W :=
  mkWorld (set_visibleElements [(7, info_at 7 (-10))] (initial [node 7] true)) 0 1%nat [].

(** A page showing lines 3, 7 and 9, before and after a first scroll
    event, after the host asked for line 7, and 30 ms later when the
    release timer has run. *)
Definition tracking_world : W :=
  after (OnIntersection [mkEntry (node 3) true 1 50 70; mkEntry (node 7) true 1 (-10) 10;
                         mkEntry (node 9) true 1 5 25])
        (start [node 3; node 7; node 9] true 0).
Definition scrolled_world : W := after OnScroll tracking_world.
Definition line7_world : W := after (Call_scrollToLine 7) tracking_world.
Definition released_world : W := after (Fire 1) (after (Wait 30) line7_world).

(** A page whose CurrentTopLine is already 5, and a destroyed page. *)
Definition world_at_5 : W :=
  mkWorld (set_currentTopLine 5 (initial [node 5] true)) 0 1%nat [].
Definition destroyed_world : W := after Call_destroy (start [node 5] true 0).

Definition sample_batch : list Entry :=
  [mkEntry (node 3) true 1 10 30; mkEntry (node 7) false 0 (-40) (-20);
   mkEntry (node 3) true (1#2) 0 20].

(** *** The page's main script

    The main script keeps the instance in a variable and has its own
    listener for the extension's messages; below is the case of its
    [switch] that scrolls the preview.  [manager] tells whether the
    variable [scrollSyncManager] holds the instance. *)



(** Calls that show in the preview or reach the extension. *)
Definition outbound (e : Effect) : bool :=
  match e with
  | PostMessage _ | ScrollIntoView _ => true
  | Observe _ | Disconnect => false
  end.

(** While the page is disabled the lock is free and the only timers
    pending are re-observations. *)
Definition Dormant (w : W) : Prop :=
  isEnabled (fields w) = false ->
  isSyncing (fields w) = false /\
  forall tm, In tm (pending w) -> callback tm = Reobserve.

(** The lock's two fields agree: it is held exactly when it has a
    source. *)
Definition LockAgrees (w : W) : Prop :=
  (isSyncing (fields w) = true -> syncSource (fields w) <> None) /\
  (isSyncing (fields w) = false -> syncSource (fields w) = None).

(** [Posted w w' out l]: a turn from [w] to [w'] with output [out] has
    posted the line [l], recorded it and armed the lock. *)
Definition Posted (w w' : W) (out : list Effect) (l : Z) : Prop :=
  out = [PostMessage l] /\
  vscode (fields w) = true /\
  getTopVisibleLine (fields w) = Some l /\
  l <> currentTopLine (fields w) /\
  currentTopLine (fields w') = l /\
  isSyncing (fields w') = true /\
  syncSource (fields w') = Some preview /\
  syncTimeout (fields w') = Some (nextHandle w) /\
  In (mkTimer (nextHandle w) (now w + SYNC_BLOCK_MS) ReleaseSync) (pending w').

(** More sample worlds.  The page of [tracking_world] after a first
    scroll event at clock 0, once its trailing call (at 16) and its
    release timer (run at 40) are done; a second scroll event at 40;
    the host's line 7 at 45; the clock at 56, when the trailing call of
    the second scroll event is due. *)
Definition quiet_world : W :=
  after (Fire 1) (after (Wait 40) (after (Fire 2) (after (Wait 16) scrolled_world))).
Definition burst_world : W := after OnScroll quiet_world.
Definition relocked_world : W := after (Call_scrollToLine 7) (after (Wait 45) burst_world).
Definition crossed_world : W :=
  after (Wait 56) (after (Call_scrollToLine 7) (after (Wait 45) burst_world)).

(** [crossed_world] once the trailing call has run, and 4 ms later when
    the observer has reported line 3 closest to the top. *)
Definition echoed_world : W := after (Fire 3) crossed_world.
Definition rescrolled_world : W :=
  after (OnIntersection [mkEntry (node 3) true 1 2 22]) (after (Wait 60) echoed_world).

(** The page of [tracking_world] with the bridge down, and the page of
    [scrolled_world] after [disable()]. *)
Definition offline_world : W := after (BridgeChanged false) tracking_world.
Definition disabled_world : W := after Call_disable scrolled_world.

End Render.

(* ================================================================== *)
(** ** Host side: [ScrollSyncManager] (scroll-sync-manager.ts)         *)
(* ================================================================== *)

Module Host.

(** The parts of the VS Code API the class touches. *)
Record Position : Type := mkPosition { line : Z; character : Z }.
Record Range : Type := mkRange { start : Position; end_ : Position }.
Record TextDocument : Type := mkTextDocument { uri : nat; lineCount : Z }.

(** [revealFails] tells whether [editor.revealRange] throws (for
    instance because the editor has been closed). *)
Record TextEditor : Type := mkTextEditor {
  document : TextDocument;
  visibleRanges : list Range;
  revealFails : bool
}.

(** An entry of [_disposables]; [disposeFails] tells whether its
    [dispose()] throws. *)
Record Disposable : Type := mkDisposable { listener : nat; disposeFails : bool }.

(** [doc === this._panel.currentDocument]: object identity, with
    [currentDocument] possibly [undefined]. *)
Definition same_document (doc : TextDocument) (cur : option TextDocument) : bool :=
  match cur with
  | Some d => Nat.eqb (uri doc) (uri d)
  | None => false
  end.

(** The private fields, followed by the two globals the methods read:
    [this._panel.currentDocument] and [vscode.window.visibleTextEditors]. *)
Record Manager : Type := mkManager {
  _isSyncing : bool;
  _syncSource : option Source;
  _currentLine : Z;
  _isEnabled : bool;
  _syncTimeout : option nat;
  _disposables : list Disposable;
  currentDocument : option TextDocument;
  visibleTextEditors : list TextEditor
}.

Definition set_isSyncing v m :=
  mkManager v (_syncSource m) (_currentLine m) (_isEnabled m) (_syncTimeout m)
            (_disposables m) (currentDocument m) (visibleTextEditors m).
Definition set_syncSource v m :=
  mkManager (_isSyncing m) v (_currentLine m) (_isEnabled m) (_syncTimeout m)
            (_disposables m) (currentDocument m) (visibleTextEditors m).
Definition set_currentLine v m :=
  mkManager (_isSyncing m) (_syncSource m) v (_isEnabled m) (_syncTimeout m)
            (_disposables m) (currentDocument m) (visibleTextEditors m).
Definition set_isEnabled v m :=
  mkManager (_isSyncing m) (_syncSource m) (_currentLine m) v (_syncTimeout m)
            (_disposables m) (currentDocument m) (visibleTextEditors m).
Definition set_syncTimeout v m :=
  mkManager (_isSyncing m) (_syncSource m) (_currentLine m) (_isEnabled m) v
            (_disposables m) (currentDocument m) (visibleTextEditors m).
Definition set_disposables v m :=
  mkManager (_isSyncing m) (_syncSource m) (_currentLine m) (_isEnabled m) (_syncTimeout m)
            v (currentDocument m) (visibleTextEditors m).
Definition set_environment cur eds m :=
  mkManager (_isSyncing m) (_syncSource m) (_currentLine m) (_isEnabled m) (_syncTimeout m)
            (_disposables m) cur eds.

(** The one closure the class passes to [setTimeout]. *)
Inductive Callback : Type :=
| ReleaseSync.      (* () => { _isSyncing = false; _syncSource = null } *)

Inductive Effect : Type :=
| PostMessage (line : Z)                      (* webview.postMessage({command: 'syncScrollToLine', line}) *)
| RevealRange (ed : TextEditor) (r : Range)   (* ed.revealRange(r, TextEditorRevealType.AtTop) *)
| Dispose (d : Disposable).                   (* d.dispose() *)

Definition _SYNC_BLOCK_MS : Z := 30.

Definition W : Type := World Manager Callback.
Definition Method (A : Type) : Type := M Manager Callback Effect A.

Local Open Scope js_scope.

(** Field initialisers of the class; [start()] registers two listeners. *)
Definition initial (ds : list Disposable) (cur : option TextDocument)
                   (eds : list TextEditor) : Manager :=
  mkManager false None 0 true None ds cur eds.

(** [enable()] *)
Definition enable : Method unit :=
  modify (set_isEnabled true).

(** [clearSyncTimeout()] *)
Definition clearSyncTimeout : Method unit :=
  t <- gets _syncTimeout ;;
  match t with
  | Some h => clearTimeout h ;; modify (set_syncTimeout None)
  | None => ret tt
  end.

(** [disable()] *)
Definition disable : Method unit :=
  modify (set_isEnabled false) ;;
  modify (set_isSyncing false) ;;
  modify (set_syncSource None) ;;
  clearSyncTimeout.

(** [syncToPreview(line)] *)
Definition syncToPreview (line : Z) : Method unit :=
  modify (set_isSyncing true) ;;
  modify (set_syncSource (Some editor)) ;;
  emit (PostMessage line) ;;
  clearSyncTimeout ;;
  h <- setTimeout ReleaseSync _SYNC_BLOCK_MS ;;
  modify (set_syncTimeout (Some h)).

(** [handleEditorScroll(editor)] *)
Definition handleEditorScroll (ed : TextEditor) : Method unit :=
  enabled <- gets _isEnabled ;;
  if negb enabled then ret tt else
  cur <- gets currentDocument ;;
  if negb (same_document (document ed) cur) then ret tt else
  syncing <- gets _isSyncing ;;
  src <- gets _syncSource ;;
  if syncing && is_source preview src then ret tt else
  match visibleRanges ed with
  | [] => throw TypeError                    (* editor.visibleRanges[0] is undefined *)
  | r :: _ =>
      let topLine := line (start r) in
      curLine <- gets _currentLine ;;
      if topLine =? curLine then ret tt else
      modify (set_currentLine topLine) ;;
      syncToPreview topLine
  end.

(** The listener installed by [setupEditorListener()]. *)
Definition onDidChangeTextEditorVisibleRanges (ed : TextEditor) : Method unit :=
  cur <- gets currentDocument ;;
  if same_document (document ed) cur then handleEditorScroll ed else ret tt.

(** [editor.revealRange(range, AtTop)] *)
Definition revealRange (ed : TextEditor) (r : Range) : Method unit :=
  if revealFails ed then throw HostError else emit (RevealRange ed r).

(** [syncToEditor(line)].  The method is [async] but never awaits, so
    its body runs within the caller's turn. *)
Definition syncToEditor (ln : Z) : Method unit :=
  syncing <- gets _isSyncing ;;
  src <- gets _syncSource ;;
  if syncing && is_source editor src then ret tt else
  modify (set_isSyncing true) ;;
  modify (set_syncSource (Some preview)) ;;
  eds <- gets visibleTextEditors ;;
  cur <- gets currentDocument ;;
  match find (fun e => same_document (document e) cur) eds with
  | None =>
      modify (set_isSyncing false) ;;
      modify (set_syncSource None)
  | Some ed =>
      let lineCount := lineCount (document ed) in
      let targetLine := Z.max 0 (Z.min ln (lineCount - 1)) in
      try_catch
        (let position := mkPosition targetLine 0 in
         let range := mkRange position position in
         revealRange ed range ;;
         modify (set_currentLine targetLine))
        (fun _ => ret tt) ;;
      clearSyncTimeout ;;
      h <- setTimeout ReleaseSync _SYNC_BLOCK_MS ;;
      modify (set_syncTimeout (Some h))
  end.

(** Messages received from the webview. *)
Inductive Message : Type :=
| previewScrolledToLine (line : Z)
| otherCommand.

(** The listener installed by [setupMessageListener()]. *)
Definition onDidReceiveMessage (message : Message) : Method unit :=
  match message with
  | previewScrolledToLine ln => syncToEditor ln
  | otherCommand => ret tt
  end.

(** [this._disposables.forEach(d => { try { d.dispose() } catch (error) { ... } })] *)
Fixpoint dispose_each (ds : list Disposable) : Method unit :=
  match ds with
  | [] => ret tt
  | d :: rest =>
      try_catch (if disposeFails d then throw HostError else emit (Dispose d))
                (fun _ => ret tt) ;;
      dispose_each rest
  end.

(** [dispose()] *)
Definition dispose : Method unit :=
  clearSyncTimeout ;;
  ds <- gets _disposables ;;
  dispose_each ds ;;
  modify (set_disposables []) ;;
  modify (set_isSyncing false) ;;
  modify (set_syncSource None) ;;
  modify (set_currentLine 0) ;;
  modify (set_isEnabled false).

(** Body of the timer closure. *)
Definition run_callback (cb : Callback) : Method unit :=
  match cb with
  | ReleaseSync =>
      modify (set_isSyncing false) ;;
      modify (set_syncSource None)
  end.

(** *** The extension host's event loop *)

Inductive Action : Type :=
| Fire (h : nat)                                (* the timer with handle [h] runs *)
| Wait (t : Z)                                  (* the clock moves to [t] *)
| OnVisibleRanges (ed : TextEditor)             (* an editor's visible ranges changed *)
| OnMessage (message : Message)                 (* the webview posted a message *)
| Call_enable
| Call_disable
| Call_dispose
| EnvChanged (cur : option TextDocument) (eds : list TextEditor).

(** Running a listener.  An exception that escapes it is reported by
    the host; the fields keep the values they had when it was thrown. *)
Definition exec (m : Method unit) (w : W) : W * list Effect :=
  match m w with
  | (_, w', out) => (w', out)
  end.

(** One turn of the event loop; [None] when the action is not enabled. *)
Definition step (a : Action) (w : W) : option (W * list Effect) :=
  match a with
  | Fire h =>
      match find_timer h (pending w) with
      | Some tm =>
          if is_due tm w
          then Some (exec (run_callback (callback tm)) (dequeue tm w))
          else None
      | None => None
      end
  | Wait t => if now w <=? t then Some (wait t w, []) else None
  | OnVisibleRanges ed => Some (exec (onDidChangeTextEditorVisibleRanges ed) w)
  | OnMessage message => Some (exec (onDidReceiveMessage message) w)
  | Call_enable => Some (exec enable w)
  | Call_disable => Some (exec disable w)
  | Call_dispose => Some (exec dispose w)
  | EnvChanged cur eds =>
      Some (mkWorld (set_environment cur eds (fields w)) (now w) (nextHandle w) (pending w), [])
  end.

(** The world right after [new ScrollSyncManager(panel).start()] at
    clock value [t0]. *)
Definition start_world (ds : list Disposable) (cur : option TextDocument)
                       (eds : list TextEditor) (t0 : Z) : W :=
  mkWorld (initial ds cur eds) t0 1%nat [].

Inductive reachable : W -> Prop :=
| reach_start ds cur eds t0 : reachable (start_world ds cur eds t0)
| reach_step w a w' out : reachable w -> step a w = Some (w', out) -> reachable w'.

(** [steps w w']: the loop takes [w] to [w'] in zero or more turns. *)
Inductive steps : W -> W -> Prop :=
| steps_refl w : steps w w
| steps_next w a w1 out w' : step a w = Some (w1, out) -> steps w1 w' -> steps w w'.

(** *** Notions used to state the properties of the manager *)

(** What every world of the loop satisfies: timer handles are older than
    the next one to be handed out; every pending timer is the one whose
    handle [_syncTimeout] holds and is due within the block window; and
    while the lock is held its release timer is pending. *)
Record Inv (w : W) : Prop := mkInv {
  inv_fresh : forall tm, In tm (pending w) -> (handle tm < nextHandle w)%nat;
  inv_stored : forall h, _syncTimeout (fields w) = Some h -> (h < nextHandle w)%nat;
  inv_owner : forall tm, In tm (pending w) -> _syncTimeout (fields w) = Some (handle tm);
  inv_window : forall tm, In tm (pending w) -> due tm <= now w + _SYNC_BLOCK_MS;
  inv_lock : _isSyncing (fields w) = true ->
             exists h d, _syncTimeout (fields w) = Some h /\
                         In (mkTimer h d ReleaseSync) (pending w)
}.

(** [Tracks h d w]: in [w], the release timer with handle [h] and due
    time [d] either still guards the lock, or the lock is free, or a
    timer set later has taken over. *)
Record Tracks (h : nat) (d : Z) (w : W) : Prop := mkTracks {
  tr_fresh : (h < nextHandle w)%nat;
  tr_newer : forall h', _syncTimeout (fields w) = Some h' -> (h <= h')%nat;
  tr_held : _syncTimeout (fields w) = Some h -> _isSyncing (fields w) = true ->
            In (mkTimer h d ReleaseSync) (pending w)
}.

(** The lock's two fields agree: it is held exactly when it has a
    source. *)
Definition LockAgrees (w : W) : Prop :=
  (_isSyncing (fields w) = true -> _syncSource (fields w) <> None) /\
  (_isSyncing (fields w) = false -> _syncSource (fields w) = None).

(** The world after one turn, unchanged when the action is not enabled. *)
Definition after (a : Action) (w : W) : W :=
  match step a w with
  | Some (w', _) => w'
  | None => w
  end.

(** Sample values for the examples below. *)
Definition sample_doc : TextDocument := mkTextDocument 1 10.
Definition range_at (l : Z) : Range := mkRange (mkPosition l 0) (mkPosition l 0).
Definition sample_editor : TextEditor := mkTextEditor sample_doc [range_at 5] false.
Definition hidden_editor : TextEditor := mkTextEditor sample_doc [] false.
Definition idle_world : W := start_world [] (Some sample_doc) [sample_editor] 0.
Definition world_at_5 : W :=
  mkWorld (set_currentLine 5 (initial [] (Some sample_doc) [sample_editor])) 0 1%nat [].
Definition inbound_world : W := after (OnMessage (previewScrolledToLine 5)) idle_world.
Definition released_world : W := after (Fire 1) (after (Wait 30) inbound_world).
Definition editor_at (l : Z) : TextEditor := mkTextEditor sample_doc [range_at l] false.
Definition outbound_world : W := after (OnVisibleRanges (editor_at 3)) idle_world.

(** An editor whose [revealRange] throws; the manager after the editor
    of an inbound line was closed; a manager with two listeners, the
    second of which fails to dispose. *)
Definition failing_editor : TextEditor := mkTextEditor sample_doc [range_at 5] true.
Definition unrevealable_world : W := start_world [] (Some sample_doc) [failing_editor] 0.
Definition closed_world : W := after (EnvChanged (Some sample_doc) []) inbound_world.
Definition listening_world : W :=
  after (OnMessage (previewScrolledToLine 5))
        (start_world [mkDisposable 1 false; mkDisposable 2 true]
                     (Some sample_doc) [sample_editor] 0).

End Host.

(* ================================================================== *)
(** ** Facts about the runtime                                         *)
(* ================================================================== *)

Lemma Qlt_bool_iff (x y : Q) : Qlt_bool x y = true <-> (x < y)%Q.
Proof.
  unfold Qlt_bool. rewrite negb_true_iff.
  split; intros H.
  - apply Qnot_le_lt. intros Hle. apply Qle_bool_iff in Hle. congruence.
  - destruct (Qle_bool y x) eqn:Hb; [|reflexivity].
    apply Qle_bool_iff in Hb. apply Qle_not_lt in Hb. contradiction.
Qed.

Lemma In_cancel {K} (h : nat) (ts : list (Timer K)) (tm : Timer K) :
  In tm (cancel h ts) <-> In tm ts /\ handle tm <> h.
Proof.
  unfold cancel. rewrite filter_In, negb_true_iff, Nat.eqb_neq. reflexivity.
Qed.

Lemma In_snoc {A} (x y : A) (l : list A) : In x (l ++ [y]) <-> In x l \/ x = y.
Proof.
  rewrite in_app_iff. simpl. intuition congruence.
Qed.

Lemma find_timer_In {K} (h : nat) (ts : list (Timer K)) (tm : Timer K) :
  find_timer h ts = Some tm -> In tm ts /\ handle tm = h.
Proof.
  unfold find_timer. intros H. apply find_some in H.
  rewrite Nat.eqb_eq in H. exact H.
Qed.

Lemma no_member_nil {A} (l : list A) : (forall x, ~ In x l) -> l = [].
Proof.
  destruct l as [|a l]; [reflexivity|]. intros H. exfalso. apply (H a). left. reflexivity.
Qed.

(* ================================================================== *)
(** ** Render side: the visible-line map and top-line selection        *)
(* ================================================================== *)

Module RenderFacts.
Import Render.

Lemma map_get_set_same k v m : map_get k (map_set k v m) = Some v.
Proof.
  induction m as [|[k' v'] m IH]; simpl.
  - rewrite Z.eqb_refl. reflexivity.
  - destruct (k' =? k) eqn:E; simpl; rewrite E; auto.
Qed.

Lemma map_get_set_other k k' v m : k' <> k -> map_get k (map_set k' v m) = map_get k m.
Proof.
  intros Hne. induction m as [|[k0 v0] m IH]; simpl.
  - destruct (k' =? k) eqn:E; [apply Z.eqb_eq in E; congruence | reflexivity].
  - destruct (k0 =? k') eqn:E; simpl.
    + apply Z.eqb_eq in E. subst k0.
      destruct (k' =? k) eqn:E'; [apply Z.eqb_eq in E'; congruence | reflexivity].
    + rewrite IH. reflexivity.
Qed.

Lemma map_get_delete_same k m : map_get k (map_delete k m) = None.
Proof.
  induction m as [|[k0 v0] m IH]; simpl; [reflexivity|].
  destruct (k0 =? k) eqn:E; simpl; [exact IH | rewrite E; exact IH].
Qed.

Lemma map_get_delete_other k k' m : k' <> k -> map_get k (map_delete k' m) = map_get k m.
Proof.
  intros Hne. induction m as [|[k0 v0] m IH]; simpl; [reflexivity|].
  destruct (k0 =? k') eqn:E; simpl.
  - apply Z.eqb_eq in E. subst k0.
    destruct (k' =? k) eqn:E'; [apply Z.eqb_eq in E'; congruence | exact IH].
  - rewrite IH. reflexivity.
Qed.

(** An entry for another line leaves the record of line [k] alone. *)
Lemma handleIntersection_entry_other k m e :
  dataLine (target e) <> k ->
  map_get k (handleIntersection_entry m e) = map_get k m.
Proof.
  intros Hne. unfold handleIntersection_entry.
  destruct (isIntersecting e).
  - apply map_get_set_other. exact Hne.
  - apply map_get_delete_other. exact Hne.
Qed.

Lemma handleIntersection_entry_same m e :
  map_get (dataLine (target e)) (handleIntersection_entry m e) =
  if isIntersecting e
  then Some (mkInfo (target e) (intersectionRatio e) (rect_top e) (rect_bottom e))
  else None.
Proof.
  unfold handleIntersection_entry. destruct (isIntersecting e).
  - apply map_get_set_same.
  - apply map_get_delete_same.
Qed.

Lemma fold_entries_other k es : forall m,
  (forall e, In e es -> dataLine (target e) <> k) ->
  map_get k (fold_left handleIntersection_entry es m) = map_get k m.
Proof.
  induction es as [|e es IH]; intros m Hall; simpl; [reflexivity|].
  rewrite IH.
  - apply handleIntersection_entry_other. apply Hall. left. reflexivity.
  - intros e' Hin. apply Hall. right. exact Hin.
Qed.

Lemma scan_ok_step seen acc kv :
  scan_ok seen acc -> scan_ok (seen ++ [kv]) (top_step acc kv).
Proof.
  destruct kv as [l i]. unfold top_step.
  destruct (Qle_bool 0 (top i)) eqn:Hge; simpl.
  - apply Qle_bool_iff in Hge.
    destruct acc as [[l0|] [t0|]]; simpl; try contradiction.
    + intros [[i0 [Hin0 Ht0]] [Hpos Hmin]].
      destruct (Qlt_bool (top i) t0) eqn:Hlt; simpl.
      * apply Qlt_bool_iff in Hlt.
        split; [exists i; split; [apply In_snoc; right; reflexivity | reflexivity]|].
        split; [exact Hge|].
        intros l' i' Hin Hp. apply In_snoc in Hin. destruct Hin as [Hin|Heq].
        -- apply Qle_trans with t0; [apply Qlt_le_weak; exact Hlt | eapply Hmin; eauto].
        -- inversion Heq. apply Qle_refl.
      * split; [exists i0; split; [apply In_snoc; left; exact Hin0 | exact Ht0]|].
        split; [exact Hpos|].
        intros l' i' Hin Hp. apply In_snoc in Hin. destruct Hin as [Hin|Heq].
        -- eapply Hmin; eauto.
        -- inversion Heq. subst.
           apply Qnot_lt_le. intros Hc. apply Qlt_bool_iff in Hc. congruence.
    + intros Hnone.
      split; [exists i; split; [apply In_snoc; right; reflexivity | reflexivity]|].
      split; [exact Hge|].
      intros l' i' Hin Hp. apply In_snoc in Hin. destruct Hin as [Hin|Heq].
      * exfalso. eapply Hnone; eauto.
      * inversion Heq. apply Qle_refl.
  - assert (Hneg : ~ (0 <= top i)%Q).
    { intros Hc. apply Qle_bool_iff in Hc. congruence. }
    destruct acc as [[l0|] [t0|]]; simpl; try contradiction.
    + intros [[i0 [Hin0 Ht0]] [Hpos Hmin]].
      split; [exists i0; split; [apply In_snoc; left; exact Hin0 | exact Ht0]|].
      split; [exact Hpos|].
      intros l' i' Hin Hp. apply In_snoc in Hin. destruct Hin as [Hin|Heq].
      * eapply Hmin; eauto.
      * inversion Heq. subst. contradiction.
    + intros Hnone l' i' Hin. apply In_snoc in Hin. destruct Hin as [Hin|Heq].
      * eapply Hnone; eauto.
      * inversion Heq. subst. exact Hneg.
Qed.

Lemma scan_ok_fold es : forall seen acc,
  scan_ok seen acc -> scan_ok (seen ++ es) (fold_left top_step es acc).
Proof.
  induction es as [|kv es IH]; intros seen acc H; simpl.
  - rewrite app_nil_r. exact H.
  - replace (seen ++ kv :: es) with ((seen ++ [kv]) ++ es)
      by (rewrite <- app_assoc; reflexivity).
    apply IH. apply scan_ok_step. exact H.
Qed.

Lemma getTopVisibleLine_scan p :
  getTopVisibleLine p = fst (fold_left top_step (visibleElements p) (None, None)).
Proof.
  unfold getTopVisibleLine. destruct (visibleElements p); reflexivity.
Qed.

Lemma getTopVisibleLine_ok p :
  scan_ok (visibleElements p) (fold_left top_step (visibleElements p) (None, None)).
Proof.
  apply (scan_ok_fold (visibleElements p) [] (None, None)).
  simpl. intros l i [].
Qed.

Lemma getTopVisibleLine_Some p l :
  getTopVisibleLine p = Some l ->
  exists info, In (l, info) (visibleElements p) /\ (0 <= top info)%Q /\
    forall l' info', In (l', info') (visibleElements p) ->
                     (0 <= top info')%Q -> (top info <= top info')%Q.
Proof.
  rewrite getTopVisibleLine_scan. intros H.
  pose proof (getTopVisibleLine_ok p) as Hok.
  destruct (fold_left top_step (visibleElements p) (None, None)) as [[l0|] [t0|]];
    simpl in *; try contradiction; try discriminate.
  inversion H. subst l0.
  destruct Hok as [[i [Hin Ht]] [Hpos Hmin]]. subst t0.
  exists i. auto.
Qed.

Lemma getTopVisibleLine_None p :
  getTopVisibleLine p = None <->
  forall l info, In (l, info) (visibleElements p) -> ~ (0 <= top info)%Q.
Proof.
  rewrite getTopVisibleLine_scan.
  pose proof (getTopVisibleLine_ok p) as Hok.
  destruct (fold_left top_step (visibleElements p) (None, None)) as [[l0|] [t0|]];
    simpl in *; try contradiction.
  - destruct Hok as [[i [Hin Ht]] [Hpos Hmin]]. subst t0.
    split; [discriminate|]. intros H. exfalso. eapply H; eauto.
  - split; auto.
Qed.

(** *** Scroll events when nothing qualifies as the top line *)

Lemma syncScrollToEditor_None (w : W) :
  getTopVisibleLine (fields w) = None -> syncScrollToEditor w = (Returned tt, w, []).
Proof.
  intros H. unfold syncScrollToEditor. js_unfold. cbn. rewrite H. reflexivity.
Qed.

Lemma handleScroll_None (w : W) :
  getTopVisibleLine (fields w) = None ->
  exists w', exec handleScroll w = (w', []) /\
             currentTopLine (fields w') = currentTopLine (fields w).
Proof.
  intros H. unfold exec, handleScroll, syncScrollToEditor. js_unfold. cbn.
  destruct (isEnabled (fields w)); cbn; [|eauto].
  destruct (isSyncing (fields w) && is_source editor (syncSource (fields w))); cbn; [eauto|].
  destruct (scrollTimeout (fields w)); cbn; [eauto|].
  rewrite H. cbn. eauto.
Qed.

(** C5. [getTopVisibleLine] returns [null] on an empty VisibleLineSet;
    when it returns a line, that line's entry has the smallest [top]
    among the entries with [top >= 0]; it does return a line as soon as
    some entry has [top >= 0]; and on {3: top=50, 7: top=-10, 9: top=5}
    it returns 9. *)
Theorem top_line_selection (p : Page) :
  (visibleElements p = [] -> getTopVisibleLine p = None) /\
  (forall l, getTopVisibleLine p = Some l ->
     exists info, In (l, info) (visibleElements p) /\ (0 <= top info)%Q /\
       forall l' info', In (l', info') (visibleElements p) ->
                        (0 <= top info')%Q -> (top info <= top info')%Q) /\
  ((exists l info, In (l, info) (visibleElements p) /\ (0 <= top info)%Q) ->
     exists l, getTopVisibleLine p = Some l) /\
  (forall i3 i7 i9, top i3 = 50%Q -> top i7 = (-10)%Q -> top i9 = 5%Q ->
     visibleElements p = [(3, i3); (7, i7); (9, i9)] ->
     getTopVisibleLine p = Some 9).
Proof.
  split; [|split; [|split]].
  - intros H. unfold getTopVisibleLine. rewrite H. reflexivity.
  - apply getTopVisibleLine_Some.
  - intros [l [info [Hin Hpos]]].
    destruct (getTopVisibleLine p) as [l0|] eqn:E; [eauto|].
    exfalso. rewrite getTopVisibleLine_None in E. eapply E; eauto.
  - intros i3 i7 i9 H3 H7 H9 Hm. unfold getTopVisibleLine. rewrite Hm.
    cbn. unfold top_step. rewrite H3, H7, H9. reflexivity.
Qed.

Lemma top_line_selection_witness :
  getTopVisibleLine sample_page = Some 9 /\
  exists info, In (9, info) (visibleElements sample_page) /\ (0 <= top info)%Q.
Proof.
  destruct (top_line_selection sample_page) as (_ & Hmin & _ & Hex).
  assert (H9 : getTopVisibleLine sample_page = Some 9).
  { apply (Hex (info_at 3 50) (info_at 7 (-10)) (info_at 9 5)); reflexivity. }
  split; [exact H9|].
  destruct (Hmin 9 H9) as (info & Hin & Hpos & _).
  exists info. split; assumption.
Defined.

(** C10. When the VisibleLineSet is non-empty but every entry has
    [top < 0], [getTopVisibleLine] returns [null]; [syncScrollToEditor]
    then does nothing, and a scroll event sends no message and leaves
    CurrentTopLine as it was. *)
Theorem all_entries_above_top_no_sync (w : W) :
  visibleElements (fields w) <> [] ->
  (forall l info, In (l, info) (visibleElements (fields w)) -> (top info < 0)%Q) ->
  getTopVisibleLine (fields w) = None /\
  syncScrollToEditor w = (Returned tt, w, []) /\
  exists w', exec handleScroll w = (w', []) /\
             currentTopLine (fields w') = currentTopLine (fields w).
Proof.
  intros _ Hneg.
  assert (HN : getTopVisibleLine (fields w) = None).
  { apply getTopVisibleLine_None. intros l info Hin Hpos.
    apply (Qlt_not_le _ _ (Hneg l info Hin)). exact Hpos. }
  split; [exact HN|]. split.
  - apply syncScrollToEditor_None. exact HN.
  - apply handleScroll_None. exact HN.
Qed.

Lemma all_entries_above_top_no_sync_witness :
  getTopVisibleLine (fields above_top_world) = None /\
  syncScrollToEditor above_top_world = (Returned tt, above_top_world, []).
Proof.
  assert (H : getTopVisibleLine (fields above_top_world) = None /\
              syncScrollToEditor above_top_world = (Returned tt, above_top_world, []) /\
              exists w', exec handleScroll above_top_world = (w', []) /\
                currentTopLine (fields w') = currentTopLine (fields above_top_world)).
  { apply all_entries_above_top_no_sync.
    - discriminate.
    - intros l info [Heq|[]]. inversion Heq. reflexivity. }
  destruct H as (H1 & H2 & _). split; assumption.
Defined.

(** C9. A batch of intersection notifications only rewrites
    [visibleElements]: nothing is sent, and the lock, CurrentTopLine, the
    enabled flag, the clock and the timers stay as they were.  In the new
    map the line of every notified element holds the record of its
    latest notification in the batch when that one is intersecting, and
    no record when it is not; lines not mentioned keep their record. *)
Theorem intersection_only_updates_visible_set (entries : list Entry) (w : W) :
  exists m',
    handleIntersection entries w =
      (Returned tt,
       mkWorld (set_visibleElements m' (fields w)) (now w) (nextHandle w) (pending w),
       []) /\
    (forall pre e post,
       entries = pre ++ e :: post ->
       (forall e', In e' post -> dataLine (target e') <> dataLine (target e)) ->
       map_get (dataLine (target e)) m' =
         if isIntersecting e then Some (info_of e) else None) /\
    (forall k,
       (forall e, In e entries -> dataLine (target e) <> k) ->
       map_get k m' = map_get k (visibleElements (fields w))).
Proof.
  exists (fold_left handleIntersection_entry entries (visibleElements (fields w))).
  split; [reflexivity|]. split.
  - intros pre e post Heq Hlast. subst entries.
    rewrite fold_left_app. simpl.
    rewrite fold_entries_other by exact Hlast.
    apply handleIntersection_entry_same.
  - intros k Hk. apply fold_entries_other. exact Hk.
Qed.

Lemma intersection_only_updates_visible_set_witness :
  exists m',
    handleIntersection sample_batch above_top_world =
      (Returned tt,
       mkWorld (set_visibleElements m' (fields above_top_world)) 0 1%nat [], []) /\
    map_get 3 m' = Some (mkInfo (node 3) (1#2) 0 20) /\
    map_get 7 m' = None.
Proof.
  destruct (intersection_only_updates_visible_set sample_batch above_top_world)
    as (m' & Hrun & Hlast & _).
  exists m'. split; [exact Hrun|]. split.
  - apply (Hlast [mkEntry (node 3) true 1 10 30; mkEntry (node 7) false 0 (-40) (-20)]
                 (mkEntry (node 3) true (1#2) 0 20) []).
    + reflexivity.
    + intros e' [].
  - apply (Hlast [mkEntry (node 3) true 1 10 30]
                 (mkEntry (node 7) false 0 (-40) (-20))
                 [mkEntry (node 3) true (1#2) 0 20]).
    + reflexivity.
    + intros e' [Heq|[]]. subst e'. discriminate.
Defined.

(** *** Invariants of the page's event loop *)

Ltac saturate F R R' T T' Wd :=
  repeat match goal with
  | H : In ?tm (pending _) |- _ =>
      lazymatch goal with
      | _ : (handle tm < _)%nat |- _ => fail
      | _ => pose proof (F _ H); pose proof (R _ H); pose proof (R' _ H);
             pose proof (T _ H); pose proof (T' _ H); pose proof (Wd _ H)
      end
  end.

Ltac keep_lock L :=
  match goal with
  | Hl : isSyncing _ = true |- _ => destruct (L Hl) as (?h & ?d & ?Hst & ?Hin)
  | |- _ => destruct (L eq_refl) as (?h & ?d & ?Hst & ?Hin)
  end.

Ltac spec_triv :=
  repeat match goal with
  | H : ?a = ?a -> _ |- _ => specialize (H eq_refl)
  end.

Ltac side_cond :=
  cbn in *; intros; try match goal with |- _ <> _ => intro end; subst; spec_triv;
  solve [ congruence | lia | discriminate | intuition (try congruence; try lia) ].

Ltac in_search :=
  lazymatch goal with
  | |- In _ (_ ++ _) => apply in_or_app; first [ left; in_search | right; in_search ]
  | |- In _ (cancel _ _) => apply In_cancel; split; [ in_search | side_cond ]
  | |- In _ (_ :: _) => first [ left; reflexivity | right; in_search ]
  | |- In _ _ => eassumption
  end.

Ltac inv_close F S1 S2 R R' T T' Wd L :=
  intros; inv_tac; subst; cbn in *;
  saturate F R R' T T' Wd; unfold SYNC_BLOCK_MS, SCROLL_DEBOUNCE_MS in *;
  try solve
    [ eauto | lia | discriminate | congruence
    | match goal with H : ?x = Some _ |- _ => apply S1 in H; lia end
    | match goal with H : ?x = Some _ |- _ => apply S2 in H; lia end
    | intuition (try congruence; try lia)
    | do 2 eexists; split; [reflexivity | in_search]
    | keep_lock L; inv_tac; subst; saturate F R R' T T' Wd;
      do 2 eexists; split; [eassumption | in_search] ].

Ltac inv_method :=
  let F := fresh "F" in let S1 := fresh "S1" in let S2 := fresh "S2" in
  let R := fresh "R" in let R' := fresh "R'" in let T := fresh "T" in let T' := fresh "T'" in
  let Wd := fresh "Wd" in let L := fresh "L" in let H := fresh "H" in
  intros [F S1 S2 R R' T T' Wd L]; js_unfold;
  split_run; intros Hrun; inversion Hrun; subst; clear Hrun;
  try (split; cbn; inv_close F S1 S2 R R' T T' Wd L).

Lemma sendScrollMessage_inv ln w r w' out :
  Inv w -> sendScrollMessage ln w = (r, w', out) -> Inv w'.
Proof. unfold sendScrollMessage. inv_method. Qed.

Lemma syncScrollToEditor_inv w r w' out :
  Inv w -> syncScrollToEditor w = (r, w', out) -> Inv w'.
Proof. unfold syncScrollToEditor, sendScrollMessage. inv_method. Qed.

Lemma handleScroll_inv w r w' out :
  Inv w -> handleScroll w = (r, w', out) -> Inv w'.
Proof. unfold handleScroll, syncScrollToEditor, sendScrollMessage. inv_method. Qed.

Lemma scrollToLine_inv ln w r w' out :
  Inv w -> scrollToLine ln w = (r, w', out) -> Inv w'.
Proof. unfold scrollToLine. inv_method. Qed.

Lemma reobserveElements_inv w r w' out :
  Inv w -> reobserveElements w = (r, w', out) -> Inv w'.
Proof. unfold reobserveElements. inv_method. Qed.

Lemma page_enable_inv w r w' out : Inv w -> enable w = (r, w', out) -> Inv w'.
Proof. unfold enable. inv_method. Qed.

Lemma page_disable_inv w r w' out : Inv w -> disable w = (r, w', out) -> Inv w'.
Proof. unfold disable. inv_method. Qed.

Lemma destroy_inv w r w' out : Inv w -> destroy w = (r, w', out) -> Inv w'.
Proof. unfold destroy. inv_method. Qed.

Lemma handleIntersection_inv es w r w' out :
  Inv w -> handleIntersection es w = (r, w', out) -> Inv w'.
Proof. unfold handleIntersection. inv_method. Qed.

Lemma observe_each_run els : forall w : W,
  observe_each els w = (Returned tt, w, map Observe els).
Proof.
  induction els as [|el els IH]; intros w; [reflexivity|].
  cbn [observe_each map]. unfold bind, emit. rewrite IH. reflexivity.
Qed.

Lemma observeElements_inv w r w' out :
  Inv w -> observeElements w = (r, w', out) -> Inv w'.
Proof.
  unfold observeElements. intros [F S1 S2 R R' T T' Wd L]. js_unfold. cbn.
  destruct (document (fields w)) as [|el els]; cbn.
  - intros H; inversion H; subst; split; auto.
  - destruct (observer (fields w)); cbn.
    + rewrite observe_each_run. intros Hrun; inversion Hrun; subst; clear Hrun.
      split; cbn; inv_close F S1 S2 R R' T T' Wd L.
    + intros H; inversion H; subst; split; auto.
Qed.

Lemma handleMessage_inv m w r w' out :
  Inv w -> handleMessage m w = (r, w', out) -> Inv w'.
Proof.
  intros HI. destruct m as [ln|[|]| |]; unfold handleMessage.
  - apply scrollToLine_inv; assumption.
  - apply page_enable_inv; assumption.
  - apply page_disable_inv; assumption.
  - apply reobserveElements_inv; assumption.
  - intros H; inversion H; subst; assumption.
Qed.

Lemma page_fire_inv tm (w : W) r w' out :
  Inv w -> In tm (pending w) ->
  run_callback (callback tm) (dequeue tm w) = (r, w', out) -> Inv w'.
Proof.
  intros HI Hin.
  destruct HI as [F S1 S2 R R' T T' Wd L].
  pose proof (F _ Hin) as HF. pose proof (R _ Hin) as HR. pose proof (R' _ Hin) as HR'.
  pose proof (T _ Hin) as HT. pose proof (T' _ Hin) as HT'.
  destruct (callback tm) eqn:Ecb; unfold run_callback.
  - js_unfold. cbn. intros Hrun; inversion Hrun; subst; clear Hrun.
    split; cbn; inv_close F S1 S2 R R' T T' Wd L.
  - unfold syncScrollToEditor, sendScrollMessage. js_unfold.
    split_run; intros Hrun; inversion Hrun; subst; clear Hrun;
      split; cbn; inv_close F S1 S2 R R' T T' Wd L.
  - unfold observeElements. js_unfold. cbn.
    destruct (document (fields w)); cbn;
      [|destruct (observer (fields w)); cbn; [rewrite observe_each_run|]];
      intros Hrun; inversion Hrun; subst; clear Hrun;
      split; cbn; inv_close F S1 S2 R R' T T' Wd L.
Qed.

Lemma page_wait_inv t (w : W) : Inv w -> now w <= t -> Inv (wait t w).
Proof.
  intros [F S1 S2 R R' T T' Wd L] Hnow.
  split; cbn; inv_close F S1 S2 R R' T T' Wd L.
Qed.

Lemma update_globals_inv f (w : W) :
  (forall p, isSyncing (f p) = isSyncing p /\ syncTimeout (f p) = syncTimeout p /\
             scrollTimeout (f p) = scrollTimeout p) ->
  Inv w -> Inv (fst (update_globals f w)).
Proof.
  intros Hf [F S1 S2 R R' T T' Wd L].
  destruct (Hf (fields w)) as (E1 & E2 & E3).
  split; cbn; rewrite ?E1, ?E2, ?E3; auto.
Qed.

Ltac step_case m lem :=
  let r := fresh "r" in let w1 := fresh "w1" in let o1 := fresh "o1" in
  let Er := fresh "Er" in let H := fresh "H" in
  unfold exec; destruct m as [[r w1] o1] eqn:Er;
  intros H; inversion H; subst; eapply lem; eauto.

Lemma page_step_inv a w w' out : Inv w -> step a w = Some (w', out) -> Inv w'.
Proof.
  intros HI. destruct a; cbn [step].
  - destruct (find_timer h (pending w)) as [tm|] eqn:Ef; [|discriminate].
    destruct (is_due tm w) eqn:Ee; [|discriminate].
    apply find_timer_In in Ef. destruct Ef as [Hin _].
    step_case (run_callback (callback tm) (dequeue tm w)) page_fire_inv.
  - destruct (now w <=? t) eqn:Ec; [|discriminate].
    intros H. inversion H; subst. apply page_wait_inv; [assumption | apply Z.leb_le; exact Ec].
  - step_case (handleScroll w) handleScroll_inv.
  - step_case (handleIntersection entries w) handleIntersection_inv.
  - step_case (handleMessage message w) handleMessage_inv.
  - step_case (scrollToLine line w) scrollToLine_inv.
  - step_case (enable w) page_enable_inv.
  - step_case (disable w) page_disable_inv.
  - step_case (destroy w) destroy_inv.
  - intros H. inversion H; subst. apply (update_globals_inv (set_document doc)); auto.
  - intros H. inversion H; subst. apply (update_globals_inv (set_vscode api)); auto.
Qed.

Lemma page_reachable_inv w : reachable w -> Inv w.
Proof.
  induction 1 as [doc api t0 | w a w' out _ IH Hs].
  - split; cbn; intros; try contradiction; discriminate.
  - eapply page_step_inv; eauto.
Qed.

(** *** Following one release timer through the loop *)

Ltac feed TH :=
  repeat match goal with
  | H : ?P |- _ =>
      match type of TH with
      | P -> _ => specialize (TH H)
      end
  | _ =>
      match type of TH with
      | ?a = ?a -> _ => specialize (TH eq_refl)
      end
  end.

Ltac tr_close TF TN TH F R R' T T' Wd :=
  intros; inv_tac; subst; cbn in *;
  try solve [ eauto | lia | discriminate | congruence
            | match goal with H : ?x = Some _ |- _ => apply TN in H; lia end
            | feed TH; saturate F R R' T T' Wd; in_search ].

Ltac tr_method :=
  let TF := fresh "TF" in let TN := fresh "TN" in let TH := fresh "TH" in
  let F := fresh "F" in let S1 := fresh "S1" in let S2 := fresh "S2" in
  let R := fresh "R" in let R' := fresh "R'" in let T := fresh "T" in let T' := fresh "T'" in
  let Wd := fresh "Wd" in let L := fresh "L" in
  let H := fresh "H" in
  intros [F S1 S2 R R' T T' Wd L] [TF TN TH]; js_unfold;
  split_run; intros H; inversion H; subst; clear H;
  try (split; cbn; tr_close TF TN TH F R R' T T' Wd).

Lemma scrollToLine_tracks h d ln w r w' out :
  Inv w -> Tracks h d w -> scrollToLine ln w = (r, w', out) -> Tracks h d w'.
Proof. unfold scrollToLine. tr_method. Qed.

Lemma handleScroll_tracks h d w r w' out :
  Inv w -> Tracks h d w -> handleScroll w = (r, w', out) -> Tracks h d w'.
Proof. unfold handleScroll, syncScrollToEditor, sendScrollMessage. tr_method. Qed.

Lemma reobserveElements_tracks h d w r w' out :
  Inv w -> Tracks h d w -> reobserveElements w = (r, w', out) -> Tracks h d w'.
Proof. unfold reobserveElements. tr_method. Qed.

Lemma enable_tracks h d w r w' out :
  Inv w -> Tracks h d w -> enable w = (r, w', out) -> Tracks h d w'.
Proof. unfold enable. tr_method. Qed.

Lemma page_disable_tracks h d w r w' out :
  Inv w -> Tracks h d w -> disable w = (r, w', out) -> Tracks h d w'.
Proof. unfold disable. tr_method. Qed.

Lemma destroy_tracks h d w r w' out :
  Inv w -> Tracks h d w -> destroy w = (r, w', out) -> Tracks h d w'.
Proof. unfold destroy. tr_method. Qed.

Lemma handleIntersection_tracks h d es w r w' out :
  Inv w -> Tracks h d w -> handleIntersection es w = (r, w', out) -> Tracks h d w'.
Proof. unfold handleIntersection. tr_method. Qed.

Lemma handleMessage_tracks h d m w r w' out :
  Inv w -> Tracks h d w -> handleMessage m w = (r, w', out) -> Tracks h d w'.
Proof.
  intros HI HT. destruct m as [ln|[|]| |]; unfold handleMessage.
  - apply scrollToLine_tracks; assumption.
  - apply enable_tracks; assumption.
  - apply page_disable_tracks; assumption.
  - apply reobserveElements_tracks; assumption.
  - intros H; inversion H; subst; assumption.
Qed.

Lemma fire_tracks h d tm (w : W) r w' out :
  Inv w -> Tracks h d w -> In tm (pending w) ->
  run_callback (callback tm) (dequeue tm w) = (r, w', out) -> Tracks h d w'.
Proof.
  intros HI HT Hin.
  destruct HI as [F S1 S2 R R' T T' Wd L]. destruct HT as [TF TN TH].
  pose proof (F _ Hin) as HF. pose proof (R _ Hin) as HR. pose proof (R' _ Hin) as HR'.
  pose proof (T _ Hin) as HT. pose proof (T' _ Hin) as HT'.
  destruct (callback tm) eqn:Ecb; unfold run_callback.
  - js_unfold. cbn. intros Hrun; inversion Hrun; subst; clear Hrun.
    split; cbn; tr_close TF TN TH F R R' T T' Wd.
  - unfold syncScrollToEditor, sendScrollMessage. js_unfold.
    split_run; intros Hrun; inversion Hrun; subst; clear Hrun;
      split; cbn; tr_close TF TN TH F R R' T T' Wd.
  - unfold observeElements. js_unfold. cbn.
    destruct (document (fields w)); cbn;
      [|destruct (observer (fields w)); cbn; [rewrite observe_each_run|]];
      intros Hrun; inversion Hrun; subst; clear Hrun;
      split; cbn; tr_close TF TN TH F R R' T T' Wd.
Qed.

Ltac step_case2 m lem :=
  let r := fresh "r" in let w1 := fresh "w1" in let o1 := fresh "o1" in
  let Er := fresh "Er" in let H := fresh "H" in
  unfold exec; destruct m as [[r w1] o1] eqn:Er;
  intros H; inversion H; subst; eapply lem; eauto.

Lemma page_step_tracks h d a w w' out :
  Inv w -> Tracks h d w -> step a w = Some (w', out) -> Tracks h d w'.
Proof.
  intros HI HT. destruct a; cbn [step].
  - destruct (find_timer h0 (pending w)) as [tm|] eqn:Ef; [|discriminate].
    destruct (is_due tm w) eqn:Ee; [|discriminate].
    apply find_timer_In in Ef. destruct Ef as [Hin _].
    step_case2 (run_callback (callback tm) (dequeue tm w)) fire_tracks.
  - destruct (now w <=? t) eqn:Ec; [|discriminate].
    intros H. inversion H; subst. destruct HT as [TF TN TH]. split; cbn; auto.
  - step_case2 (handleScroll w) handleScroll_tracks.
  - step_case2 (handleIntersection entries w) handleIntersection_tracks.
  - step_case2 (handleMessage message w) handleMessage_tracks.
  - step_case2 (scrollToLine line w) scrollToLine_tracks.
  - step_case2 (enable w) enable_tracks.
  - step_case2 (disable w) page_disable_tracks.
  - step_case2 (destroy w) destroy_tracks.
  - intros H. inversion H; subst. destruct HT as [TF TN TH]. split; cbn; auto.
  - intros H. inversion H; subst. destruct HT as [TF TN TH]. split; cbn; auto.
Qed.

Lemma page_steps_inv_tracks h d w w' :
  steps w w' -> Inv w -> Tracks h d w -> Inv w' /\ Tracks h d w'.
Proof.
  induction 1 as [w | w a w1 out w' Hs _ IH]; intros HI HT; [auto|].
  apply IH; [eapply page_step_inv | eapply page_step_tracks]; eauto.
Qed.

(** Once the clock has reached the due time of the tracked timer and no
    timer is due, the lock is free or guarded by a later timer. *)
Lemma page_released_or_rearmed h d (w : W) :
  Inv w -> Tracks h d w -> settled w = true -> d <= now w ->
  isSyncing (fields w) = false \/
  exists h', syncTimeout (fields w) = Some h' /\ (h < h')%nat.
Proof.
  intros HI [TF TN TH] Hs Hd.
  destruct (isSyncing (fields w)) eqn:E; [right | left; reflexivity].
  destruct (inv_lock w HI E) as (h' & d' & Hst & Hin).
  exists h'. split; [exact Hst|].
  pose proof (TN _ Hst) as Hle.
  destruct (Nat.eq_dec h h') as [->|Hne]; [|lia].
  exfalso. specialize (TH Hst eq_refl).
  unfold settled in Hs. rewrite forallb_forall in Hs.
  apply Hs in TH. cbn in TH. apply Z.ltb_lt in TH. lia.
Qed.

Ltac arm_close :=
  cbn; intros;
  solve [ auto | discriminate
        | right; split; [reflexivity | unfold SYNC_BLOCK_MS; in_search] ].

(** A turn that leaves the lock held either found it held and kept its
    timer, or armed it: a fresh timer due one block window from now. *)
Lemma page_step_arms a w w' out :
  Inv w -> step a w = Some (w', out) -> isSyncing (fields w') = true ->
  (isSyncing (fields w) = true /\ syncTimeout (fields w') = syncTimeout (fields w)) \/
  (syncTimeout (fields w') = Some (nextHandle w) /\
   In (mkTimer (nextHandle w) (now w' + SYNC_BLOCK_MS) ReleaseSync) (pending w')).
Proof.
  intros HI. destruct a; cbn [step].
  - destruct (find_timer h (pending w)) as [tm|] eqn:Ef; [|discriminate].
    destruct (is_due tm w) eqn:Ee; [|discriminate].
    apply find_timer_In in Ef. destruct Ef as [Hin _].
    unfold exec. destruct (callback tm); unfold run_callback.
    + js_unfold. cbn. intros H; inversion H; subst; clear H. cbn. discriminate.
    + unfold syncScrollToEditor, sendScrollMessage. js_unfold.
      split_run; intros H; inversion H; subst; clear H; arm_close.
    + unfold observeElements. js_unfold. cbn.
      destruct (document (fields w)); cbn;
      [|destruct (observer (fields w)); cbn; [rewrite observe_each_run|]];
      intros H; inversion H; subst; clear H; arm_close.
  - destruct (now w <=? t) eqn:Ec; [|discriminate].
    intros H. inversion H; subst. cbn. auto.
  - unfold exec, handleScroll, syncScrollToEditor, sendScrollMessage. js_unfold.
    split_run; intros H; inversion H; subst; clear H; arm_close.
  - unfold exec, handleIntersection. js_unfold. intros H; inversion H; subst; clear H; arm_close.
  - unfold exec. destruct message as [ln|[|]| |]; unfold handleMessage.
    + unfold scrollToLine. js_unfold.
      split_run; intros H; inversion H; subst; clear H; arm_close.
    + unfold enable. js_unfold. intros H; inversion H; subst; clear H; arm_close.
    + unfold disable. js_unfold.
      split_run; intros H; inversion H; subst; clear H; arm_close.
    + unfold reobserveElements. js_unfold.
      split_run; intros H; inversion H; subst; clear H; arm_close.
    + js_unfold. intros H; inversion H; subst; clear H; arm_close.
  - unfold exec, scrollToLine. js_unfold.
    split_run; intros H; inversion H; subst; clear H; arm_close.
  - unfold exec, enable. js_unfold. intros H; inversion H; subst; clear H; arm_close.
  - unfold exec, disable. js_unfold.
    split_run; intros H; inversion H; subst; clear H; arm_close.
  - unfold exec, destroy. js_unfold.
    split_run; intros H; inversion H; subst; clear H; arm_close.
  - intros H. inversion H; subst. cbn. auto.
  - intros H. inversion H; subst. cbn. auto.
Qed.

(** *** Turning synchronisation off, and the life of a lock *)

Lemma page_reachable_after a w : reachable w -> reachable (after a w).
Proof.
  intros H. unfold after. destruct (step a w) as [[w' out]|] eqn:E; [|exact H].
  eapply reach_step; eauto.
Qed.

(** [disable()] on a page of the loop: the lock is cleared, both stored
    handles are dropped, and only re-observation timers stay pending. *)
Lemma page_disable_run (w : W) :
  Inv w ->
  exists w',
    disable w = (Returned tt, w', []) /\
    isEnabled (fields w') = false /\
    isSyncing (fields w') = false /\
    syncSource (fields w') = None /\
    syncTimeout (fields w') = None /\
    scrollTimeout (fields w') = None /\
    (forall tm, In tm (pending w') <-> In tm (pending w) /\ callback tm = Reobserve) /\
    currentTopLine (fields w') = currentTopLine (fields w) /\
    visibleElements (fields w') = visibleElements (fields w) /\
    now w' = now w.
Proof.
  intros [F S1 S2 R R' T T' Wd L]. unfold disable. js_unfold.
  split_run; (eexists; split; [reflexivity|]); cbn; repeat split; intros;
    rewrite ?In_cancel in *; inv_tac; saturate F R R' T T' Wd;
    try solve [ auto | side_cond
              | destruct (callback tm); spec_triv; try reflexivity; congruence
              | repeat split; try assumption; intro; subst; spec_triv; congruence ].
Qed.

(** A lock armed by a turn of the loop is released, or re-armed by a
    later timer, by the time the clock has passed one block window. *)
Lemma page_armed_lock_expires a w w1 out :
  Inv w -> step a w = Some (w1, out) -> isSyncing (fields w1) = true ->
  (isSyncing (fields w) = true /\ syncTimeout (fields w1) = syncTimeout (fields w)) \/
  (exists h,
     syncTimeout (fields w1) = Some h /\
     In (mkTimer h (now w1 + SYNC_BLOCK_MS) ReleaseSync) (pending w1) /\
     forall w', steps w1 w' -> settled w' = true -> now w1 + SYNC_BLOCK_MS <= now w' ->
       isSyncing (fields w') = false \/
       exists h', syncTimeout (fields w') = Some h' /\ (h < h')%nat).
Proof.
  intros HI Hs Hl.
  destruct (page_step_arms a w w1 out HI Hs Hl) as [Hkeep | [Hst Hin]]; [left; exact Hkeep | right].
  assert (HI1 : Inv w1) by (eapply page_step_inv; eauto).
  exists (nextHandle w). split; [exact Hst|]. split; [exact Hin|].
  intros w' Hsteps Hset Hnow.
  assert (HT : Tracks (nextHandle w) (now w1 + SYNC_BLOCK_MS) w1).
  { split.
    - apply (inv_sync_stored w1 HI1). exact Hst.
    - intros h' Hh'. rewrite Hst in Hh'. inversion Hh'. lia.
    - intros _ _. exact Hin. }
  destruct (page_steps_inv_tracks _ _ _ _ Hsteps HI1 HT) as [HI' HT'].
  eapply page_released_or_rearmed; eauto.
Qed.

(** With the lock free, a scroll event that finds a new top line is
    synchronised. *)
Lemma handleScroll_unlocked (w : W) (l : Z) :
  isSyncing (fields w) = false -> isEnabled (fields w) = true ->
  scrollTimeout (fields w) = None -> vscode (fields w) = true ->
  getTopVisibleLine (fields w) = Some l -> l <> currentTopLine (fields w) ->
  exists w', exec handleScroll w = (w', [PostMessage l]) /\
             currentTopLine (fields w') = l.
Proof.
  intros Hl He Hsc Hv Ht Hne. apply Z.eqb_neq in Hne.
  unfold exec, handleScroll, syncScrollToEditor, sendScrollMessage. js_unfold. cbn.
  rewrite He. cbn. rewrite Hl. cbn. rewrite Hsc. cbn. rewrite Ht. cbn. rewrite Hne. cbn.
  rewrite Hv. cbn.
  destruct (syncTimeout (fields w)); cbn; eauto.
Qed.

(** *** The lock's two fields change together *)

Ltac agrees_close :=
  unfold LockAgrees in *; cbn in *;
  solve [ assumption
        | split; intros; first [ discriminate | congruence | reflexivity ]
        | intuition congruence ].

Ltac agrees_method :=
  let HA := fresh "HA" in let Hrun := fresh "Hrun" in
  intros HA; js_unfold; split_run; intros Hrun; inversion Hrun; subst; clear Hrun;
  agrees_close.

Lemma handleScroll_agrees w r w' out :
  LockAgrees w -> handleScroll w = (r, w', out) -> LockAgrees w'.
Proof. unfold handleScroll, syncScrollToEditor, sendScrollMessage. agrees_method. Qed.

Lemma scrollToLine_agrees ln w r w' out :
  LockAgrees w -> scrollToLine ln w = (r, w', out) -> LockAgrees w'.
Proof. unfold scrollToLine. agrees_method. Qed.

Lemma reobserveElements_agrees w r w' out :
  LockAgrees w -> reobserveElements w = (r, w', out) -> LockAgrees w'.
Proof. unfold reobserveElements. agrees_method. Qed.

Lemma page_enable_agrees w r w' out :
  LockAgrees w -> enable w = (r, w', out) -> LockAgrees w'.
Proof. unfold enable. agrees_method. Qed.

Lemma page_disable_agrees w r w' out :
  LockAgrees w -> disable w = (r, w', out) -> LockAgrees w'.
Proof. unfold disable. agrees_method. Qed.

Lemma destroy_agrees w r w' out :
  LockAgrees w -> destroy w = (r, w', out) -> LockAgrees w'.
Proof. unfold destroy. agrees_method. Qed.

Lemma handleIntersection_agrees es w r w' out :
  LockAgrees w -> handleIntersection es w = (r, w', out) -> LockAgrees w'.
Proof. unfold handleIntersection. agrees_method. Qed.

Lemma handleMessage_agrees m w r w' out :
  LockAgrees w -> handleMessage m w = (r, w', out) -> LockAgrees w'.
Proof.
  intros HA. destruct m as [ln|[|]| |]; unfold handleMessage.
  - apply scrollToLine_agrees; assumption.
  - apply page_enable_agrees; assumption.
  - apply page_disable_agrees; assumption.
  - apply reobserveElements_agrees; assumption.
  - intros H; inversion H; subst; assumption.
Qed.

Lemma page_run_callback_agrees cb (w : W) r w' out :
  LockAgrees w -> run_callback cb w = (r, w', out) -> LockAgrees w'.
Proof.
  destruct cb; unfold run_callback.
  - agrees_method.
  - unfold syncScrollToEditor, sendScrollMessage. agrees_method.
  - unfold observeElements. intros HA. js_unfold. cbn.
    destruct (document (fields w)); cbn;
      [|destruct (observer (fields w)); cbn; [rewrite observe_each_run|]];
      intros Hrun; inversion Hrun; subst; clear Hrun; agrees_close.
Qed.

Lemma page_step_agrees a w w' out :
  LockAgrees w -> step a w = Some (w', out) -> LockAgrees w'.
Proof.
  intros HA. destruct a; cbn [step].
  - destruct (find_timer h (pending w)) as [tm|]; [|discriminate].
    destruct (is_due tm w); [|discriminate].
    unfold exec. destruct (run_callback (callback tm) (dequeue tm w)) as [[r w1] o1] eqn:Er.
    intros H. inversion H; subst.
    apply (page_run_callback_agrees (callback tm) (dequeue tm w) r w' out HA Er).
  - destruct (now w <=? t); [|discriminate]. intros H. inversion H; subst. exact HA.
  - step_case (handleScroll w) handleScroll_agrees.
  - step_case (handleIntersection entries w) handleIntersection_agrees.
  - step_case (handleMessage message w) handleMessage_agrees.
  - step_case (scrollToLine line w) scrollToLine_agrees.
  - step_case (enable w) page_enable_agrees.
  - step_case (disable w) page_disable_agrees.
  - step_case (destroy w) destroy_agrees.
  - intros H. inversion H; subst. exact HA.
  - intros H. inversion H; subst. exact HA.
Qed.

Lemma page_reachable_agrees w : reachable w -> LockAgrees w.
Proof.
  induction 1 as [doc api t0 | w a w' out _ IH Hs].
  - split; cbn; [discriminate | reflexivity].
  - eapply page_step_agrees; eauto.
Qed.

Lemma page_steps_reachable w w' : reachable w -> steps w w' -> reachable w'.
Proof.
  intros Hr Hs. induction Hs as [w | w a w1 out w' Hstep _ IH]; [exact Hr|].
  apply IH. eapply reach_step; eauto.
Qed.

End RenderFacts.
(* ================================================================== *)
(** ** Host side: invariants of the manager's event loop               *)
(* ================================================================== *)

Module HostFacts.
Import Host.

Ltac inv_close F S O D :=
  intros; inv_tac; subst; cbn in *;
  try solve [ eauto | lia | discriminate | congruence
            | match goal with H : In _ _ |- _ => apply F in H; lia end
            | match goal with H : In _ _ |- _ => apply D in H; unfold _SYNC_BLOCK_MS in *; lia end
            | match goal with H : In _ _ |- _ => pose proof (O _ H); congruence end
            | unfold _SYNC_BLOCK_MS in *; lia
            | do 2 eexists; split; [reflexivity | apply in_or_app; right; left; reflexivity] ].

Ltac inv_method :=
  let F := fresh "F" in let S := fresh "S" in let O := fresh "O" in
  let D := fresh "D" in let L := fresh "L" in let H := fresh "H" in
  intros [F S O D L]; js_unfold;
  split_run; intros H; inversion H; subst; clear H; try (split; cbn; inv_close F S O D).

(** The listener is [handleEditorScroll] behind a document check. *)
Lemma onDidChange_run ed (w : W) :
  onDidChangeTextEditorVisibleRanges ed w =
  if same_document (document ed) (currentDocument (fields w))
  then handleEditorScroll ed w else (Returned tt, w, []).
Proof.
  unfold onDidChangeTextEditorVisibleRanges, bind, gets. cbv beta iota.
  destruct (same_document _ _); [|reflexivity].
  destruct (handleEditorScroll ed w) as [[r w1] o1]. reflexivity.
Qed.

Lemma handleEditorScroll_inv ed w r w' out :
  Inv w -> handleEditorScroll ed w = (r, w', out) -> Inv w'.
Proof. unfold handleEditorScroll, syncToPreview, clearSyncTimeout. inv_method. Qed.

Lemma onDidChange_inv ed w r w' out :
  Inv w -> onDidChangeTextEditorVisibleRanges ed w = (r, w', out) -> Inv w'.
Proof.
  intros HI. rewrite onDidChange_run. destruct (same_document _ _).
  - apply handleEditorScroll_inv. exact HI.
  - intros H; inversion H; subst; auto.
Qed.

Lemma syncToEditor_inv ln w r w' out :
  Inv w -> syncToEditor ln w = (r, w', out) -> Inv w'.
Proof. unfold syncToEditor, revealRange, clearSyncTimeout. inv_method. Qed.

Lemma host_enable_inv w r w' out : Inv w -> enable w = (r, w', out) -> Inv w'.
Proof. unfold enable. inv_method. Qed.

Lemma host_disable_inv w r w' out : Inv w -> disable w = (r, w', out) -> Inv w'.
Proof. unfold disable, clearSyncTimeout. inv_method. Qed.

(** Disposing the listeners never throws and touches no field. *)
Lemma dispose_each_run ds : forall w : W,
  dispose_each ds w =
  (Returned tt, w, map Dispose (filter (fun d => negb (disposeFails d)) ds)).
Proof.
  induction ds as [|d ds IH]; intros w; [reflexivity|].
  cbn [dispose_each filter]. unfold bind, try_catch.
  destruct (disposeFails d); cbn; rewrite IH; reflexivity.
Qed.

Lemma dispose_inv w r w' out : Inv w -> dispose w = (r, w', out) -> Inv w'.
Proof.
  unfold dispose, clearSyncTimeout. intros [F S O D L]. js_unfold. cbn.
  destruct (_syncTimeout (fields w)) eqn:E; cbn; rewrite dispose_each_run; cbn;
    intros H; inversion H; subst; clear H; split; cbn; inv_close F S O D.
Qed.

Lemma host_fire_inv tm (w : W) r w' out :
  Inv w -> In tm (pending w) ->
  run_callback (callback tm) (dequeue tm w) = (r, w', out) -> Inv w'.
Proof.
  intros [F S O D L] Hin.
  destruct (callback tm). unfold run_callback. js_unfold. cbn.
  intros H. inversion H; subst; clear H. split; cbn; inv_close F S O D.
Qed.

Lemma host_wait_inv t (w : W) : Inv w -> now w <= t -> Inv (wait t w).
Proof.
  intros [F S O D L] Hnow.
  split; cbn; inv_close F S O D.
Qed.

Lemma host_step_inv a w w' out : Inv w -> step a w = Some (w', out) -> Inv w'.
Proof.
  intros HI. destruct a; cbn [step].
  - destruct (find_timer h (pending w)) as [tm|] eqn:Ef; [|discriminate].
    destruct (is_due tm w) eqn:Ee; [|discriminate].
    apply find_timer_In in Ef. destruct Ef as [Hin _].
    unfold exec. destruct (run_callback _ _) as [[r w1] o1] eqn:Er.
    intros H. inversion H; subst. eapply host_fire_inv; eauto.
  - destruct (now w <=? t) eqn:Ec; [|discriminate].
    intros H. inversion H; subst. apply host_wait_inv; [assumption | apply Z.leb_le; exact Ec].
  - unfold exec.
    destruct (onDidChangeTextEditorVisibleRanges ed w) as [[r w1] o1] eqn:Er.
    intros H. inversion H; subst. eapply onDidChange_inv; eauto.
  - unfold exec.
    destruct (onDidReceiveMessage message w) as [[r w1] o1] eqn:Er.
    intros H. inversion H; subst. destruct message; unfold onDidReceiveMessage in Er.
    + eapply syncToEditor_inv; eauto.
    + inversion Er; subst; assumption.
  - unfold exec.
    destruct (enable w) as [[r w1] o1] eqn:Er.
    intros H. inversion H; subst. eapply host_enable_inv; eauto.
  - unfold exec.
    destruct (disable w) as [[r w1] o1] eqn:Er.
    intros H. inversion H; subst. eapply host_disable_inv; eauto.
  - unfold exec.
    destruct (dispose w) as [[r w1] o1] eqn:Er.
    intros H. inversion H; subst. eapply dispose_inv; eauto.
  - intros H. inversion H; subst. destruct HI as [F S O D L].
    split; cbn; inv_close F S O D.
Qed.

Lemma host_reachable_inv w : reachable w -> Inv w.
Proof.
  induction 1 as [ds cur eds t0 | w a w' out _ IH Hs].
  - split; cbn; intros; try contradiction; discriminate.
  - eapply host_step_inv; eauto.
Qed.

(** *** Following one release timer through the loop *)

Ltac tr_close TF TN TH :=
  intros; inv_tac; subst; cbn in *;
  try solve [ eauto | lia | discriminate | congruence
            | match goal with H : ?x = Some _ |- _ => apply TN in H; lia end
            | apply in_or_app; left; eauto ].

Ltac tr_method :=
  let TF := fresh "TF" in let TN := fresh "TN" in let TH := fresh "TH" in
  let H := fresh "H" in
  intros [TF TN TH]; js_unfold;
  split_run; intros H; inversion H; subst; clear H; try (split; cbn; tr_close TF TN TH).

Lemma handleEditorScroll_tracks h d ed w r w' out :
  Tracks h d w -> handleEditorScroll ed w = (r, w', out) -> Tracks h d w'.
Proof. unfold handleEditorScroll, syncToPreview, clearSyncTimeout. tr_method. Qed.

Lemma syncToEditor_tracks h d ln w r w' out :
  Tracks h d w -> syncToEditor ln w = (r, w', out) -> Tracks h d w'.
Proof. unfold syncToEditor, revealRange, clearSyncTimeout. tr_method. Qed.

Lemma host_disable_tracks h d w r w' out :
  Tracks h d w -> disable w = (r, w', out) -> Tracks h d w'.
Proof. unfold disable, clearSyncTimeout. tr_method. Qed.

Lemma dispose_tracks h d w r w' out :
  Tracks h d w -> dispose w = (r, w', out) -> Tracks h d w'.
Proof.
  unfold dispose, clearSyncTimeout. intros [TF TN TH]. js_unfold. cbn.
  destruct (_syncTimeout (fields w)) eqn:E; cbn; rewrite dispose_each_run; cbn;
    intros H; inversion H; subst; clear H; split; cbn; tr_close TF TN TH.
Qed.

Lemma host_step_tracks h d a w w' out :
  Tracks h d w -> step a w = Some (w', out) -> Tracks h d w'.
Proof.
  intros HT. destruct a; cbn [step].
  - destruct (find_timer h0 (pending w)) as [tm|] eqn:Ef; [|discriminate].
    destruct (is_due tm w) eqn:Ee; [|discriminate].
    destruct (callback tm). unfold exec, run_callback. js_unfold. cbn.
    intros H. inversion H; subst; clear H. destruct HT as [TF TN TH].
    split; cbn; tr_close TF TN TH.
  - destruct (now w <=? t) eqn:Ec; [|discriminate].
    intros H. inversion H; subst. destruct HT as [TF TN TH].
    split; cbn; tr_close TF TN TH.
  - unfold exec.
    rewrite onDidChange_run. destruct (same_document _ _).
    + destruct (handleEditorScroll ed w) as [[r w1] o1] eqn:Er.
      intros H. inversion H; subst.
      eapply handleEditorScroll_tracks; eauto.
    + intros H; inversion H; subst; auto.
  - unfold exec.
    destruct (onDidReceiveMessage message w) as [[r w1] o1] eqn:Er.
    intros H. inversion H; subst. destruct message; unfold onDidReceiveMessage in Er.
    + eapply syncToEditor_tracks; eauto.
    + inversion Er; subst; assumption.
  - unfold exec, enable. js_unfold.
    intros H. inversion H; subst. destruct HT as [TF TN TH].
    split; cbn; tr_close TF TN TH.
  - unfold exec.
    destruct (disable w) as [[r w1] o1] eqn:Er.
    intros H. inversion H; subst. eapply host_disable_tracks; eauto.
  - unfold exec.
    destruct (dispose w) as [[r w1] o1] eqn:Er.
    intros H. inversion H; subst. eapply dispose_tracks; eauto.
  - intros H. inversion H; subst. destruct HT as [TF TN TH].
    split; cbn; tr_close TF TN TH.
Qed.

Lemma host_steps_inv_tracks h d w w' :
  steps w w' -> Inv w -> Tracks h d w -> Inv w' /\ Tracks h d w'.
Proof.
  induction 1 as [w | w a w1 out w' Hs _ IH]; intros HI HT; [auto|].
  apply IH; [eapply host_step_inv | eapply host_step_tracks]; eauto.
Qed.

(** Once the clock has reached the due time of the tracked timer and no
    timer is due, the lock is free or guarded by a later timer. *)
Lemma host_released_or_rearmed h d (w : W) :
  Inv w -> Tracks h d w -> settled w = true -> d <= now w ->
  _isSyncing (fields w) = false \/
  exists h', _syncTimeout (fields w) = Some h' /\ (h < h')%nat.
Proof.
  intros [F S O D L] [TF TN TH] Hs Hd.
  destruct (_isSyncing (fields w)) eqn:E; [right | left; reflexivity].
  destruct (L eq_refl) as (h' & d' & Hst & Hin).
  exists h'. split; [exact Hst|].
  pose proof (TN _ Hst) as Hle.
  destruct (Nat.eq_dec h h') as [->|Hne]; [|lia].
  exfalso. specialize (TH Hst eq_refl).
  unfold settled in Hs. rewrite forallb_forall in Hs.
  apply Hs in TH. cbn in TH. apply Z.ltb_lt in TH. lia.
Qed.

(** A turn that leaves the lock held either found it held and kept its
    timer, or armed it: a fresh timer due one block window from now. *)
Lemma host_step_arms a w w' out :
  Inv w -> step a w = Some (w', out) -> _isSyncing (fields w') = true ->
  (_isSyncing (fields w) = true /\ _syncTimeout (fields w') = _syncTimeout (fields w)) \/
  (_syncTimeout (fields w') = Some (nextHandle w) /\
   In (mkTimer (nextHandle w) (now w' + _SYNC_BLOCK_MS) ReleaseSync) (pending w')).
Proof.
  intros HI. destruct a; cbn [step].
  - destruct (find_timer h (pending w)) as [tm|] eqn:Ef; [|discriminate].
    destruct (is_due tm w) eqn:Ee; [|discriminate].
    destruct (callback tm). unfold exec, run_callback. js_unfold. cbn.
    intros H. inversion H; subst; clear H. cbn. discriminate.
  - destruct (now w <=? t) eqn:Ec; [|discriminate].
    intros H. inversion H; subst. cbn. auto.
  - unfold exec. rewrite onDidChange_run.
    unfold handleEditorScroll, syncToPreview, clearSyncTimeout.
    js_unfold. split_run; intros H; inversion H; subst; clear H; cbn; intros;
      try solve [ auto | discriminate | right; split; [reflexivity | apply in_or_app; right; left; reflexivity] ].
  - unfold exec, onDidReceiveMessage. destruct message.
    + unfold syncToEditor, revealRange, clearSyncTimeout.
      js_unfold. split_run; intros H; inversion H; subst; clear H; cbn; intros;
      try solve [ auto | discriminate | right; split; [reflexivity | apply in_or_app; right; left; reflexivity] ].
    + js_unfold. intros H; inversion H; subst; auto.
  - unfold exec, enable. js_unfold.
    intros H. inversion H; subst. cbn. auto.
  - unfold exec, disable, clearSyncTimeout. js_unfold.
    split_run; intros H; inversion H; subst; cbn; discriminate.
  - unfold exec.
    unfold dispose, clearSyncTimeout. js_unfold. cbn.
    destruct (_syncTimeout (fields w)) eqn:E; cbn; rewrite dispose_each_run; cbn;
    intros H; inversion H; subst; cbn; discriminate.
  - intros H. inversion H; subst. cbn. auto.
Qed.

(** *** Inbound lines *)

(** C4. When [syncToEditor] handles a line, with an editor showing the
    document (whose [lineCount] is at least 1, as for every VS Code
    document), the line it reveals lies in [0, lineCount - 1]: it is
    [lineCount - 1] when the inbound line is [>= lineCount], 0 when it
    is negative, and the inbound line itself otherwise. *)
Theorem inbound_line_clamped (w : W) (ln : Z) (ed : TextEditor) :
  _isSyncing (fields w) && is_source editor (_syncSource (fields w)) = false ->
  find (fun e => same_document (document e) (currentDocument (fields w)))
       (visibleTextEditors (fields w)) = Some ed ->
  1 <= lineCount (document ed) ->
  revealFails ed = false ->
  exists t w',
    exec (syncToEditor ln) w = (w', [RevealRange ed (range_at t)]) /\
    _currentLine (fields w') = t /\
    0 <= t <= lineCount (document ed) - 1 /\
    (lineCount (document ed) <= ln -> t = lineCount (document ed) - 1) /\
    (ln < 0 -> t = 0) /\
    (0 <= ln < lineCount (document ed) -> t = ln).
Proof.
  intros Hlock Hfind Hcount Hrev.
  exists (Z.max 0 (Z.min ln (lineCount (document ed) - 1))).
  unfold exec, syncToEditor, revealRange, clearSyncTimeout. js_unfold. cbn.
  rewrite Hlock. cbn. rewrite Hfind. cbn. rewrite Hrev. cbn.
  destruct (_syncTimeout (fields w)); cbn;
    (eexists; split; [reflexivity|]; cbn; repeat split; lia).
Qed.

Lemma inbound_line_clamped_witness :
  exists t w',
    exec (syncToEditor 42) idle_world = (w', [RevealRange sample_editor (range_at t)]) /\
    t = 9.
Proof.
  destruct (inbound_line_clamped idle_world 42 sample_editor)
    as (t & w' & Hrun & _ & _ & Hhi & _).
  - reflexivity.
  - reflexivity.
  - cbn. lia.
  - reflexivity.
  - exists t, w'. split; [exact Hrun|]. apply Hhi. cbn. lia.
Defined.

(** *** Turning synchronisation off, and the life of a lock *)

Lemma host_reachable_after a w : reachable w -> reachable (after a w).
Proof.
  intros H. unfold after. destruct (step a w) as [[w' out]|] eqn:E; [|exact H].
  eapply reach_step; eauto.
Qed.

(** [disable()] on a manager of the loop: the lock is cleared and no
    timer stays pending. *)
Lemma host_disable_run (w : W) :
  Inv w ->
  exists w',
    disable w = (Returned tt, w', []) /\
    _isEnabled (fields w') = false /\
    _isSyncing (fields w') = false /\
    _syncSource (fields w') = None /\
    _syncTimeout (fields w') = None /\
    pending w' = [] /\
    _currentLine (fields w') = _currentLine (fields w) /\
    now w' = now w.
Proof.
  intros [F S O D L]. unfold disable, clearSyncTimeout. js_unfold.
  split_run; (eexists; split; [reflexivity|]); cbn; repeat split;
    try reflexivity; try assumption.
  - apply no_member_nil. intros tm H. apply In_cancel in H. destruct H as [H Hne].
    apply O in H. congruence.
  - apply no_member_nil. intros tm H. apply O in H. discriminate.
Qed.

(** A lock armed by a turn of the loop is released, or re-armed by a
    later timer, by the time the clock has passed one block window. *)
Lemma host_armed_lock_expires a w w1 out :
  Inv w -> step a w = Some (w1, out) -> _isSyncing (fields w1) = true ->
  (_isSyncing (fields w) = true /\ _syncTimeout (fields w1) = _syncTimeout (fields w)) \/
  (exists h,
     _syncTimeout (fields w1) = Some h /\
     In (mkTimer h (now w1 + _SYNC_BLOCK_MS) ReleaseSync) (pending w1) /\
     forall w', steps w1 w' -> settled w' = true -> now w1 + _SYNC_BLOCK_MS <= now w' ->
       _isSyncing (fields w') = false \/
       exists h', _syncTimeout (fields w') = Some h' /\ (h < h')%nat).
Proof.
  intros HI Hs Hl.
  destruct (host_step_arms a w w1 out HI Hs Hl) as [Hkeep | [Hst Hin]]; [left; exact Hkeep | right].
  assert (HI1 : Inv w1) by (eapply host_step_inv; eauto).
  exists (nextHandle w). split; [exact Hst|]. split; [exact Hin|].
  intros w' Hsteps Hset Hnow.
  assert (HT : Tracks (nextHandle w) (now w1 + _SYNC_BLOCK_MS) w1).
  { split.
    - apply (inv_stored w1 HI1). exact Hst.
    - intros h' Hh'. rewrite Hst in Hh'. inversion Hh'. lia.
    - intros _ _. exact Hin. }
  destruct (host_steps_inv_tracks _ _ _ _ Hsteps HI1 HT) as [HI' HT'].
  eapply host_released_or_rearmed; eauto.
Qed.

(** With the lock free, a change of the editor's top line is
    synchronised. *)
Lemma handleEditorScroll_unlocked (w : W) (ed : TextEditor) (r : Range) (rest : list Range) :
  _isSyncing (fields w) = false -> _isEnabled (fields w) = true ->
  same_document (document ed) (currentDocument (fields w)) = true ->
  visibleRanges ed = r :: rest -> line (start r) <> _currentLine (fields w) ->
  exists w', exec (handleEditorScroll ed) w = (w', [PostMessage (line (start r))]) /\
             _currentLine (fields w') = line (start r).
Proof.
  intros Hl He Hd Hv Hne. apply Z.eqb_neq in Hne.
  unfold exec, handleEditorScroll, syncToPreview, clearSyncTimeout. js_unfold. cbn.
  rewrite He. cbn. rewrite Hd. cbn. rewrite Hl. cbn. rewrite Hv. cbn. rewrite Hne. cbn.
  destruct (_syncTimeout (fields w)); cbn; eauto.
Qed.

(** *** The lock's two fields change together *)

Ltac agrees_close :=
  unfold LockAgrees in *; cbn in *;
  solve [ assumption
        | split; intros; first [ discriminate | congruence | reflexivity ]
        | intuition congruence ].

Ltac agrees_method :=
  let HA := fresh "HA" in let Hrun := fresh "Hrun" in
  intros HA; js_unfold; split_run; intros Hrun; inversion Hrun; subst; clear Hrun;
  agrees_close.

Lemma handleEditorScroll_agrees ed w r w' out :
  LockAgrees w -> handleEditorScroll ed w = (r, w', out) -> LockAgrees w'.
Proof. unfold handleEditorScroll, syncToPreview, clearSyncTimeout. agrees_method. Qed.

Lemma onDidChange_agrees ed w r w' out :
  LockAgrees w -> onDidChangeTextEditorVisibleRanges ed w = (r, w', out) -> LockAgrees w'.
Proof.
  intros HA. rewrite onDidChange_run. destruct (same_document _ _).
  - apply handleEditorScroll_agrees. exact HA.
  - intros H; inversion H; subst; auto.
Qed.

Lemma syncToEditor_agrees ln w r w' out :
  LockAgrees w -> syncToEditor ln w = (r, w', out) -> LockAgrees w'.
Proof. unfold syncToEditor, revealRange, clearSyncTimeout. agrees_method. Qed.

Lemma host_enable_agrees w r w' out :
  LockAgrees w -> enable w = (r, w', out) -> LockAgrees w'.
Proof. unfold enable. agrees_method. Qed.

Lemma host_disable_agrees w r w' out :
  LockAgrees w -> disable w = (r, w', out) -> LockAgrees w'.
Proof. unfold disable, clearSyncTimeout. agrees_method. Qed.

Lemma dispose_agrees w r w' out :
  LockAgrees w -> dispose w = (r, w', out) -> LockAgrees w'.
Proof.
  unfold dispose, clearSyncTimeout. intros HA. js_unfold. cbn.
  destruct (_syncTimeout (fields w)) eqn:E; cbn; rewrite dispose_each_run; cbn;
    intros H; inversion H; subst; clear H; agrees_close.
Qed.

Lemma host_run_callback_agrees cb (w : W) r w' out :
  LockAgrees w -> run_callback cb w = (r, w', out) -> LockAgrees w'.
Proof. destruct cb; unfold run_callback. agrees_method. Qed.

Lemma host_step_agrees a w w' out :
  LockAgrees w -> step a w = Some (w', out) -> LockAgrees w'.
Proof.
  intros HA. destruct a; cbn [step]; unfold exec.
  - destruct (find_timer h (pending w)) as [tm|]; [|discriminate].
    destruct (is_due tm w); [|discriminate].
    destruct (run_callback (callback tm) (dequeue tm w)) as [[r w1] o1] eqn:Er.
    intros H. inversion H; subst.
    apply (host_run_callback_agrees (callback tm) (dequeue tm w) r w' out HA Er).
  - destruct (now w <=? t); [|discriminate]. intros H. inversion H; subst. exact HA.
  - destruct (onDidChangeTextEditorVisibleRanges ed w) as [[r w1] o1] eqn:Er.
    intros H. inversion H; subst. eapply onDidChange_agrees; eauto.
  - destruct (onDidReceiveMessage message w) as [[r w1] o1] eqn:Er.
    intros H. inversion H; subst. destruct message; unfold onDidReceiveMessage in Er.
    + eapply syncToEditor_agrees; eauto.
    + inversion Er; subst; assumption.
  - destruct (enable w) as [[r w1] o1] eqn:Er.
    intros H. inversion H; subst. eapply host_enable_agrees; eauto.
  - destruct (disable w) as [[r w1] o1] eqn:Er.
    intros H. inversion H; subst. eapply host_disable_agrees; eauto.
  - destruct (dispose w) as [[r w1] o1] eqn:Er.
    intros H. inversion H; subst. eapply dispose_agrees; eauto.
  - intros H. inversion H; subst. exact HA.
Qed.

Lemma host_reachable_agrees w : reachable w -> LockAgrees w.
Proof.
  induction 1 as [ds cur eds t0 | w a w' out _ IH Hs].
  - split; cbn; [discriminate | reflexivity].
  - eapply host_step_agrees; eauto.
Qed.

Lemma host_steps_reachable w w' : reachable w -> steps w w' -> reachable w'.
Proof.
  intros Hr Hs. induction Hs as [w | w a w1 out w' Hstep _ IH]; [exact Hr|].
  apply IH. eapply reach_step; eauto.
Qed.

End HostFacts.
(* ================================================================== *)
(** ** Properties of the two controllers                               *)
(* ================================================================== *)

(** C3. The trailing call that [handleScroll] schedules runs
    [syncScrollToEditor] without looking at the lock.  On a page showing
    lines 3, 7 and 9, a scroll event at clock 40 finds nothing new and
    leaves its trailing call due at 56.  Line 7 arrives from the host at
    45 and arms the lock with source [editor]; its release timer is due
    at 75.  At 56 the lock is still held by [editor]: a scroll event
    arriving then is ignored, but the trailing call posts
    previewScrolledToLine 9 and hands the lock to [preview].  A scroll
    event at 60, inside the window armed at 45, is then let through and
    posts line 3. *)
Theorem trailing_scroll_call_posts_inside_block_window :
  Render.reachable Render.crossed_world /\
  now Render.quiet_world = 40 /\
  Render.isSyncing (fields Render.quiet_world) = false /\
  pending Render.quiet_world = [] /\
  Render.step Render.OnScroll Render.quiet_world = Some (Render.burst_world, []) /\
  pending Render.burst_world = [mkTimer 3 (40 + Render.SCROLL_DEBOUNCE_MS) Render.TrailingScroll] /\
  Render.step (Render.Call_scrollToLine 7) (Render.after (Render.Wait 45) Render.burst_world)
    = Some (Render.relocked_world, [Render.ScrollIntoView (Render.node 7)]) /\
  Render.crossed_world = Render.after (Render.Wait 56) Render.relocked_world /\
  now Render.crossed_world = 56 /\
  Render.isSyncing (fields Render.crossed_world) = true /\
  Render.syncSource (fields Render.crossed_world) = Some editor /\
  Render.syncTimeout (fields Render.crossed_world) = Some 4%nat /\
  pending Render.crossed_world
    = [mkTimer 3 56 Render.TrailingScroll; mkTimer 4 (45 + Render.SYNC_BLOCK_MS) Render.ReleaseSync] /\
  Render.step Render.OnScroll Render.crossed_world = Some (Render.crossed_world, []) /\
  Render.step (Render.Fire 3) Render.crossed_world
    = Some (Render.echoed_world, [Render.PostMessage 9]) /\
  Render.isSyncing (fields Render.echoed_world) = true /\
  Render.syncSource (fields Render.echoed_world) = Some preview /\
  Render.reachable Render.rescrolled_world /\
  now Render.rescrolled_world = 60 /\
  snd (Render.exec Render.handleScroll Render.rescrolled_world) = [Render.PostMessage 3].
Proof.
  split.
  { unfold Render.crossed_world, Render.burst_world, Render.quiet_world,
      Render.scrolled_world, Render.tracking_world.
    repeat apply RenderFacts.page_reachable_after. apply Render.reach_start. }
  do 16 (split; [vm_compute; reflexivity|]).
  split.
  { unfold Render.rescrolled_world, Render.echoed_world, Render.crossed_world,
      Render.burst_world, Render.quiet_world, Render.scrolled_world, Render.tracking_world.
    repeat apply RenderFacts.page_reachable_after. apply Render.reach_start. }
  split; vm_compute; reflexivity.
Qed.

(** C6. An editor of the tracked document whose [visibleRanges] is empty
    makes [handleEditorScroll] throw, and the listener around it lets
    the exception through.  On the page, an [updateContent] message
    reaching an instance after [destroy()] throws as well. *)
Theorem viewport_handler_throws_on_empty_visibleRanges :
  Host.handleEditorScroll Host.hidden_editor Host.idle_world
    = (Thrown TypeError, Host.idle_world, []) /\
  Host.onDidChangeTextEditorVisibleRanges Host.hidden_editor Host.idle_world
    = (Thrown TypeError, Host.idle_world, []) /\
  Render.handleMessage Render.updateContent Render.destroyed_world
    = (Thrown TypeError, Render.destroyed_world, []).
Proof. repeat split; reflexivity. Qed.

(** C1, as the code has it.  A controller that accepts an inbound line
    performs the scroll call on every delivery: handled twice in a row,
    the same line gives the same [revealRange] / [scrollIntoView] call
    twice, and the second delivery changes no field but the handle of
    the release timer it re-arms. *)
Theorem repeated_inbound_line_scrolls_each_time :
  (forall (w : Host.W) (ln : Z) (ed : Host.TextEditor),
     Host._isSyncing (fields w) && is_source editor (Host._syncSource (fields w)) = false ->
     find (fun e => Host.same_document (Host.document e) (Host.currentDocument (fields w)))
          (Host.visibleTextEditors (fields w)) = Some ed ->
     Host.revealFails ed = false ->
     exists t w1 w2,
       t = Z.max 0 (Z.min ln (Host.lineCount (Host.document ed) - 1)) /\
       Host.exec (Host.syncToEditor ln) w = (w1, [Host.RevealRange ed (Host.range_at t)]) /\
       Host.exec (Host.syncToEditor ln) w1 = (w2, [Host.RevealRange ed (Host.range_at t)]) /\
       fields w2 = Host.set_syncTimeout (Host._syncTimeout (fields w2)) (fields w1)) /\
  (forall (w : Render.W) (ln : Z) (el : Render.Node),
     Render.isEnabled (fields w) = true ->
     Render.isSyncing (fields w) && is_source preview (Render.syncSource (fields w)) = false ->
     Render.querySelector_line ln (Render.document (fields w)) = Some el ->
     exists w1 w2,
       Render.exec (Render.scrollToLine ln) w = (w1, [Render.ScrollIntoView el]) /\
       Render.exec (Render.scrollToLine ln) w1 = (w2, [Render.ScrollIntoView el]) /\
       fields w2 = Render.set_syncTimeout (Render.syncTimeout (fields w2)) (fields w1)).
Proof.
  split.
  - intros w ln ed Hlock Hfind Hrev.
    exists (Z.max 0 (Z.min ln (Host.lineCount (Host.document ed) - 1))).
    unfold Host.exec, Host.syncToEditor, Host.revealRange, Host.clearSyncTimeout.
    js_unfold. cbn. rewrite Hlock. cbn. rewrite Hfind. cbn. rewrite Hrev. cbn.
    destruct (Host._syncTimeout (fields w)); cbn;
      (eexists; eexists; split; [reflexivity|]; split; [reflexivity|];
       cbn; rewrite Hfind; cbn; rewrite Hrev; cbn; split; reflexivity).
  - intros w ln el Hen Hlock Hq.
    unfold Render.exec, Render.scrollToLine. js_unfold. cbn.
    rewrite Hen. cbn. rewrite Hlock. cbn. rewrite Hq. cbn.
    destruct (Render.syncTimeout (fields w)); cbn;
      (eexists; eexists; split; [reflexivity|]; cbn; rewrite Hen; cbn; rewrite Hq; cbn;
       split; reflexivity).
Qed.

Lemma repeated_inbound_line_scrolls_each_time_witness :
  (exists t w1 w2,
     Host.exec (Host.syncToEditor 5) Host.world_at_5
       = (w1, [Host.RevealRange Host.sample_editor (Host.range_at t)]) /\
     Host.exec (Host.syncToEditor 5) w1
       = (w2, [Host.RevealRange Host.sample_editor (Host.range_at t)])) /\
  (exists w1 w2,
     Render.exec (Render.scrollToLine 5) Render.world_at_5
       = (w1, [Render.ScrollIntoView (Render.node 5)]) /\
     Render.exec (Render.scrollToLine 5) w1
       = (w2, [Render.ScrollIntoView (Render.node 5)])).
Proof.
  destruct repeated_inbound_line_scrolls_each_time as [HH HR]. split.
  - destruct (HH Host.world_at_5 5 Host.sample_editor) as (t & w1 & w2 & _ & H1 & H2 & _);
      try reflexivity.
    exists t, w1, w2. split; assumption.
  - destruct (HR Render.world_at_5 5 (Render.node 5)) as (w1 & w2 & H1 & H2 & _);
      try reflexivity.
    exists w1, w2. split; assumption.
Defined.

(** C1 as stated fails: with CurrentTopLine already 5 on either side,
    the second delivery of line 5 calls [revealRange] / [scrollIntoView]
    again. *)
Lemma second_delivery_scrolls_again :
  (Host._currentLine (fields Host.world_at_5) = 5 /\
   snd (Host.exec (Host.syncToEditor 5)
          (fst (Host.exec (Host.syncToEditor 5) Host.world_at_5)))
     = [Host.RevealRange Host.sample_editor (Host.range_at 5)]) /\
  (Render.currentTopLine (fields Render.world_at_5) = 5 /\
   snd (Render.exec (Render.scrollToLine 5)
          (fst (Render.exec (Render.scrollToLine 5) Render.world_at_5)))
     = [Render.ScrollIntoView (Render.node 5)]).
Proof. repeat split; reflexivity. Qed.

(** C2, as the code has it.  With synchronisation enabled and no lock
    held by the preview, [scrollToLine] looks for the element tagged
    with the line first.  When there is one, the lock is armed with
    source [editor], CurrentTopLine becomes the line, the element is
    scrolled to, and the release timer is set one block window ahead.
    When there is none, the call changes nothing: no scroll, no lock,
    CurrentTopLine as before. *)
Theorem inbound_line_on_page (w : Render.W) (ln : Z) :
  Render.isEnabled (fields w) = true ->
  Render.isSyncing (fields w) && is_source preview (Render.syncSource (fields w)) = false ->
  match Render.querySelector_line ln (Render.document (fields w)) with
  | Some el =>
      exists w',
        Render.exec (Render.scrollToLine ln) w = (w', [Render.ScrollIntoView el]) /\
        Render.isSyncing (fields w') = true /\
        Render.syncSource (fields w') = Some editor /\
        Render.currentTopLine (fields w') = ln /\
        Render.syncTimeout (fields w') = Some (nextHandle w) /\
        In (mkTimer (nextHandle w) (now w + Render.SYNC_BLOCK_MS) Render.ReleaseSync)
           (pending w')
  | None => Render.exec (Render.scrollToLine ln) w = (w, [])
  end.
Proof.
  intros Hen Hlock.
  unfold Render.exec, Render.scrollToLine. js_unfold. cbn.
  rewrite Hen. cbn. rewrite Hlock. cbn.
  destruct (Render.querySelector_line ln (Render.document (fields w))); cbn; [|reflexivity].
  destruct (Render.syncTimeout (fields w)); cbn;
    (eexists; split; [reflexivity|]; cbn; repeat split;
     apply in_or_app; right; left; reflexivity).
Qed.

Lemma inbound_line_on_page_witness :
  (exists w', Render.exec (Render.scrollToLine 7) Render.tracking_world
                = (w', [Render.ScrollIntoView (Render.node 7)]) /\
              Render.syncSource (fields w') = Some editor) /\
  Render.exec (Render.scrollToLine 8) Render.tracking_world = (Render.tracking_world, []).
Proof.
  split.
  - destruct (inbound_line_on_page Render.tracking_world 7 eq_refl eq_refl)
      as (w' & Hrun & _ & Hsrc & _).
    exists w'. split; assumption.
  - exact (inbound_line_on_page Render.tracking_world 8 eq_refl eq_refl).
Defined.

(** C2 as stated fails: line 8 is delivered while the page is enabled
    and unlocked, no element is tagged 8, and afterwards no lock is held
    and CurrentTopLine is not 8. *)
Lemma missing_element_arms_no_lock :
  Render.isEnabled (fields Render.tracking_world) = true /\
  Render.isSyncing (fields Render.tracking_world) = false /\
  Render.querySelector_line 8 (Render.document (fields Render.tracking_world)) = None /\
  Render.isSyncing (fields (fst (Render.exec (Render.scrollToLine 8) Render.tracking_world)))
    = false /\
  Render.currentTopLine (fields (fst (Render.exec (Render.scrollToLine 8) Render.tracking_world)))
    <> 8 /\
  pending (fst (Render.exec (Render.scrollToLine 8) Render.tracking_world)) = [].
Proof. repeat split; try reflexivity. cbn. discriminate. Qed.

(** C7. On either side [disable()] clears the lock at once, drops the
    stored timer handles and cancels the timers they stand for: on the
    page no release or trailing-scroll timer stays pending (only
    re-observation timers, which [disable()] does not own a handle to),
    on the manager no timer at all.  CurrentTopLine is left alone.
    [enable()] sets the enabled flag and does nothing else. *)
Theorem disable_clears_lock_and_timers :
  (forall w : Render.W, Render.reachable w ->
     exists w',
       Render.disable w = (Returned tt, w', []) /\
       Render.isEnabled (fields w') = false /\
       Render.isSyncing (fields w') = false /\
       Render.syncSource (fields w') = None /\
       Render.syncTimeout (fields w') = None /\
       Render.scrollTimeout (fields w') = None /\
       (forall tm, In tm (pending w') <->
                   In tm (pending w) /\ callback tm = Render.Reobserve) /\
       Render.currentTopLine (fields w') = Render.currentTopLine (fields w) /\
       Render.visibleElements (fields w') = Render.visibleElements (fields w) /\
       now w' = now w) /\
  (forall w : Render.W,
     Render.enable w =
       (Returned tt,
        mkWorld (Render.set_isEnabled true (fields w)) (now w) (nextHandle w) (pending w),
        [])) /\
  (forall w : Host.W, Host.reachable w ->
     exists w',
       Host.disable w = (Returned tt, w', []) /\
       Host._isEnabled (fields w') = false /\
       Host._isSyncing (fields w') = false /\
       Host._syncSource (fields w') = None /\
       Host._syncTimeout (fields w') = None /\
       pending w' = [] /\
       Host._currentLine (fields w') = Host._currentLine (fields w) /\
       now w' = now w) /\
  (forall w : Host.W,
     Host.enable w =
       (Returned tt,
        mkWorld (Host.set_isEnabled true (fields w)) (now w) (nextHandle w) (pending w),
        [])).
Proof.
  split; [|split; [|split]].
  - intros w Hr. apply RenderFacts.page_disable_run. apply RenderFacts.page_reachable_inv. exact Hr.
  - reflexivity.
  - intros w Hr. apply HostFacts.host_disable_run. apply HostFacts.host_reachable_inv. exact Hr.
  - reflexivity.
Qed.

Lemma disable_clears_lock_and_timers_witness :
  (exists w', Render.disable Render.scrolled_world = (Returned tt, w', []) /\
              Render.isSyncing (fields w') = false /\
              Render.currentTopLine (fields w') = 9) /\
  (exists w', Host.disable Host.inbound_world = (Returned tt, w', []) /\
              pending w' = [] /\
              Host._currentLine (fields w') = 5).
Proof.
  destruct disable_clears_lock_and_timers as (HR & _ & HH & _). split.
  - destruct (HR Render.scrolled_world) as (w' & Hrun & _ & Hs & _ & _ & _ & _ & Hc & _).
    + apply RenderFacts.page_reachable_after. apply RenderFacts.page_reachable_after. apply Render.reach_start.
    + exists w'. split; [exact Hrun|]. split; [exact Hs|]. rewrite Hc. reflexivity.
  - destruct (HH Host.inbound_world) as (w' & Hrun & _ & _ & _ & _ & Hp & Hc & _).
    + apply HostFacts.host_reachable_after. apply Host.reach_start.
    + exists w'. split; [exact Hrun|]. split; [exact Hp|]. rewrite Hc. reflexivity.
Defined.

(** C8. On either side, when a turn of the loop at clock value [T] arms
    the lock, its release timer is pending and due at [T + 30]; in any
    later world whose clock has reached [T + 30], once the timers due by
    then have run, the lock is released (not active, no source), unless
    a timer set later has re-armed it.  A turn that leaves the lock held
    without arming it found it held and left its timer in place; so a
    held lock always has its release timer pending, due at most 30 ms
    ahead.  In every world of the loop the lock's two fields agree: it
    is active exactly when it has a source.  With the lock released,
    the next natural event is synchronised as usual. *)
Theorem lock_released_within_block_window :
  (Host._SYNC_BLOCK_MS = 30 /\ Render.SYNC_BLOCK_MS = 30) /\
  (forall (w : Host.W) a w1 out,
     Host.reachable w -> Host.step a w = Some (w1, out) ->
     Host._isSyncing (fields w1) = true ->
     (Host._isSyncing (fields w) = true /\
      Host._syncTimeout (fields w1) = Host._syncTimeout (fields w)) \/
     (exists h,
        Host._syncTimeout (fields w1) = Some h /\
        In (mkTimer h (now w1 + Host._SYNC_BLOCK_MS) Host.ReleaseSync) (pending w1) /\
        forall w', Host.steps w1 w' -> settled w' = true ->
          now w1 + Host._SYNC_BLOCK_MS <= now w' ->
          (Host._isSyncing (fields w') = false /\ Host._syncSource (fields w') = None) \/
          exists h', Host._syncTimeout (fields w') = Some h' /\ (h < h')%nat)) /\
  (forall (w : Render.W) a w1 out,
     Render.reachable w -> Render.step a w = Some (w1, out) ->
     Render.isSyncing (fields w1) = true ->
     (Render.isSyncing (fields w) = true /\
      Render.syncTimeout (fields w1) = Render.syncTimeout (fields w)) \/
     (exists h,
        Render.syncTimeout (fields w1) = Some h /\
        In (mkTimer h (now w1 + Render.SYNC_BLOCK_MS) Render.ReleaseSync) (pending w1) /\
        forall w', Render.steps w1 w' -> settled w' = true ->
          now w1 + Render.SYNC_BLOCK_MS <= now w' ->
          (Render.isSyncing (fields w') = false /\ Render.syncSource (fields w') = None) \/
          exists h', Render.syncTimeout (fields w') = Some h' /\ (h < h')%nat)) /\
  (forall w : Host.W,
     Host.reachable w -> Host._isSyncing (fields w) = true ->
     exists h d,
       Host._syncTimeout (fields w) = Some h /\
       In (mkTimer h d Host.ReleaseSync) (pending w) /\
       d <= now w + Host._SYNC_BLOCK_MS) /\
  (forall w : Render.W,
     Render.reachable w -> Render.isSyncing (fields w) = true ->
     exists h d,
       Render.syncTimeout (fields w) = Some h /\
       In (mkTimer h d Render.ReleaseSync) (pending w) /\
       d <= now w + Render.SYNC_BLOCK_MS) /\
  (forall w : Host.W,
     Host.reachable w ->
     (Host._isSyncing (fields w) = true -> Host._syncSource (fields w) <> None) /\
     (Host._isSyncing (fields w) = false -> Host._syncSource (fields w) = None)) /\
  (forall w : Render.W,
     Render.reachable w ->
     (Render.isSyncing (fields w) = true -> Render.syncSource (fields w) <> None) /\
     (Render.isSyncing (fields w) = false -> Render.syncSource (fields w) = None)) /\
  (forall (w : Host.W) ed r rest,
     Host._isSyncing (fields w) = false -> Host._isEnabled (fields w) = true ->
     Host.same_document (Host.document ed) (Host.currentDocument (fields w)) = true ->
     Host.visibleRanges ed = r :: rest ->
     Host.line (Host.start r) <> Host._currentLine (fields w) ->
     exists w',
       Host.exec (Host.handleEditorScroll ed) w
         = (w', [Host.PostMessage (Host.line (Host.start r))]) /\
       Host._currentLine (fields w') = Host.line (Host.start r)) /\
  (forall (w : Render.W) l,
     Render.isSyncing (fields w) = false -> Render.isEnabled (fields w) = true ->
     Render.scrollTimeout (fields w) = None -> Render.vscode (fields w) = true ->
     Render.getTopVisibleLine (fields w) = Some l ->
     l <> Render.currentTopLine (fields w) ->
     exists w',
       Render.exec Render.handleScroll w = (w', [Render.PostMessage l]) /\
       Render.currentTopLine (fields w') = l).
Proof.
  split; [split; reflexivity|].
  split; [|split; [|split; [|split; [|split; [|split; [|split]]]]]].
  - intros w a w1 out Hr Hs Hl.
    destruct (HostFacts.host_armed_lock_expires a w w1 out
                (HostFacts.host_reachable_inv w Hr) Hs Hl)
      as [Hkeep | (h & Hst & Hin & Hrel)]; [left; exact Hkeep | right].
    exists h. split; [exact Hst|]. split; [exact Hin|].
    intros w' Hsteps Hset Hnow.
    destruct (Hrel w' Hsteps Hset Hnow) as [Hfree | Hre]; [left | right; exact Hre].
    split; [exact Hfree|].
    assert (Hr' : Host.reachable w').
    { apply (HostFacts.host_steps_reachable w1); [|exact Hsteps].
      apply (Host.reach_step w a w1 out Hr Hs). }
    apply (proj2 (HostFacts.host_reachable_agrees w' Hr') Hfree).
  - intros w a w1 out Hr Hs Hl.
    destruct (RenderFacts.page_armed_lock_expires a w w1 out
                (RenderFacts.page_reachable_inv w Hr) Hs Hl)
      as [Hkeep | (h & Hst & Hin & Hrel)]; [left; exact Hkeep | right].
    exists h. split; [exact Hst|]. split; [exact Hin|].
    intros w' Hsteps Hset Hnow.
    destruct (Hrel w' Hsteps Hset Hnow) as [Hfree | Hre]; [left | right; exact Hre].
    split; [exact Hfree|].
    assert (Hr' : Render.reachable w').
    { apply (RenderFacts.page_steps_reachable w1); [|exact Hsteps].
      apply (Render.reach_step w a w1 out Hr Hs). }
    apply (proj2 (RenderFacts.page_reachable_agrees w' Hr') Hfree).
  - intros w Hr Hl. apply HostFacts.host_reachable_inv in Hr.
    destruct (Host.inv_lock w Hr Hl) as (h & d & Hst & Hin).
    exists h, d. split; [exact Hst|]. split; [exact Hin|].
    apply (Host.inv_window w Hr _ Hin).
  - intros w Hr Hl. apply RenderFacts.page_reachable_inv in Hr.
    destruct (Render.inv_lock w Hr Hl) as (h & d & Hst & Hin).
    exists h, d. split; [exact Hst|]. split; [exact Hin|].
    apply (Render.inv_window w Hr _ Hin). reflexivity.
  - intros w Hr. exact (HostFacts.host_reachable_agrees w Hr).
  - intros w Hr. exact (RenderFacts.page_reachable_agrees w Hr).
  - apply HostFacts.handleEditorScroll_unlocked.
  - apply RenderFacts.handleScroll_unlocked.
Qed.

Lemma lock_released_within_block_window_witness :
  (Host._isSyncing (fields Host.released_world) = false /\
   Host._syncSource (fields Host.released_world) = None) /\
  (Render.isSyncing (fields Render.released_world) = false /\
   Render.syncSource (fields Render.released_world) = None).
Proof.
  destruct lock_released_within_block_window as (_ & HH & HR & _). split.
  - destruct (HH Host.idle_world (Host.OnMessage (Host.previewScrolledToLine 5))
                 Host.inbound_world
                 [Host.RevealRange Host.sample_editor (Host.range_at 5)])
      as [[Hheld _] | (h & Hst & _ & Hrel)].
    + apply Host.reach_start.
    + reflexivity.
    + reflexivity.
    + cbv in Hheld. discriminate Hheld.
    + destruct (Hrel Host.released_world) as [Hfree | (h' & Hst' & Hlt)].
      * apply (Host.steps_next _ (Host.Wait 30) (Host.after (Host.Wait 30) Host.inbound_world) []);
          [reflexivity|].
        apply (Host.steps_next _ (Host.Fire 1) Host.released_world []);
          [reflexivity | apply Host.steps_refl].
      * reflexivity.
      * vm_compute. discriminate.
      * exact Hfree.
      * cbn in Hst, Hst'. inversion Hst. inversion Hst'. subst. lia.
  - destruct (HR Render.tracking_world (Render.Call_scrollToLine 7)
                 Render.line7_world [Render.ScrollIntoView (Render.node 7)])
      as [[Hheld _] | (h & Hst & _ & Hrel)].
    + apply RenderFacts.page_reachable_after. apply Render.reach_start.
    + reflexivity.
    + reflexivity.
    + cbv in Hheld. discriminate Hheld.
    + destruct (Hrel Render.released_world) as [Hfree | (h' & Hst' & Hlt)].
      * apply (Render.steps_next _ (Render.Wait 30)
                 (Render.after (Render.Wait 30) Render.line7_world) []);
          [reflexivity|].
        apply (Render.steps_next _ (Render.Fire 1) Render.released_world []);
          [reflexivity | apply Render.steps_refl].
      * reflexivity.
      * vm_compute. discriminate.
      * exact Hfree.
      * cbn in Hst, Hst'. inversion Hst. inversion Hst'. subst. lia.
Defined.

(* ================================================================== *)
(** ** Further properties: the timer table                             *)
(* ================================================================== *)

Section FreshTimers.
Context {S K E : Type}.

Lemma Fresh_cancel n h (ts : list (Timer K)) : Fresh n ts -> Fresh n (cancel h ts).
Proof.
  intros [Hnd Hlt]. split.
  - clear Hlt. induction ts as [|t ts IH]; [constructor|].
    unfold cancel in *. cbn [filter]. cbn [map] in Hnd. inversion Hnd as [|? ? Hnotin Hnd']; subst.
    destruct (negb (handle t =? h)%nat); [|auto].
    cbn [map]. constructor; [|auto].
    intros Hin. apply Hnotin. apply in_map_iff in Hin. destruct Hin as (t' & Heq & Hin).
    apply filter_In in Hin. apply in_map_iff. exists t'. tauto.
  - intros tm Hin. apply In_cancel in Hin. apply Hlt. tauto.
Qed.

Lemma Fresh_snoc n d cb (ts : list (Timer K)) :
  Fresh n ts -> Fresh (Datatypes.S n) (ts ++ [mkTimer n d cb]).
Proof.
  intros [Hnd Hlt]. split.
  - rewrite map_app. cbn [map handle].
    clear - Hnd Hlt. induction ts as [|t ts IH]; cbn.
    + constructor; [intros []|constructor].
    + cbn [map] in Hnd. inversion Hnd as [|? ? Hnotin Hnd']; subst.
      constructor.
      * rewrite in_app_iff. intros [Hin|[Heq|[]]]; [contradiction|].
        assert (handle t < n)%nat by (apply Hlt; left; reflexivity). lia.
      * apply IH; [assumption|]. intros tm Hin. apply Hlt. right. exact Hin.
  - intros tm Hin. apply In_snoc in Hin. destruct Hin as [Hin| ->]; [apply Hlt in Hin; lia | cbn; lia].
Qed.

Lemma kf_ret {A} (a : A) : @keeps_fresh S K E A (ret a).
Proof. intros w r w' out HF H. inversion H; subst. exact HF. Qed.

Lemma kf_throw {A} e : keeps_fresh (@throw S K E A e).
Proof. intros w r w' out HF H. inversion H; subst. exact HF. Qed.

Lemma kf_gets {A} (f : S -> A) : @keeps_fresh S K E A (gets f).
Proof. intros w r w' out HF H. inversion H; subst. exact HF. Qed.

Lemma kf_modify f : keeps_fresh (@modify S K E f).
Proof. intros w r w' out HF H. inversion H; subst. exact HF. Qed.

Lemma kf_emit e : keeps_fresh (@emit S K E e).
Proof. intros w r w' out HF H. inversion H; subst. exact HF. Qed.

Lemma kf_setTimeout cb d : keeps_fresh (@setTimeout S K E cb d).
Proof. intros w r w' out HF H. inversion H; subst. cbn. apply Fresh_snoc. exact HF. Qed.

Lemma kf_clearTimeout h : keeps_fresh (@clearTimeout S K E h).
Proof. intros w r w' out HF H. inversion H; subst. cbn. apply Fresh_cancel. exact HF. Qed.

Lemma kf_bind {A B} (m : M S K E A) (k : A -> M S K E B) :
  keeps_fresh m -> (forall a, keeps_fresh (k a)) -> keeps_fresh (bind m k).
Proof.
  intros Hm Hk w r w' out HF. unfold bind.
  destruct (m w) as [[[a|e] w1] o1] eqn:Em.
  - destruct (k a w1) as [[r2 w2] o2] eqn:Ek. intros H. inversion H; subst.
    eapply Hk; [|exact Ek]. eapply Hm; eauto.
  - intros H. inversion H; subst. eapply Hm; eauto.
Qed.

Lemma kf_try_catch (body : M S K E unit) handler :
  keeps_fresh body -> (forall e, keeps_fresh (handler e)) -> keeps_fresh (try_catch body handler).
Proof.
  intros Hm Hk w r w' out HF. unfold try_catch.
  destruct (body w) as [[[a|e] w1] o1] eqn:Em.
  - intros H. inversion H; subst. eapply Hm; eauto.
  - destruct (handler e w1) as [[r2 w2] o2] eqn:Ek. intros H. inversion H; subst.
    eapply Hk; [|exact Ek]. eapply Hm; eauto.
Qed.

Lemma kf_when c (m : M S K E unit) : keeps_fresh m -> keeps_fresh (when c m).
Proof. intros Hm. destruct c; [exact Hm | apply kf_ret]. Qed.

(** In a fresh table a handle names one timer. *)
Lemma Fresh_same_handle n (ts : list (Timer K)) a b :
  Fresh n ts -> In a ts -> In b ts -> handle a = handle b -> a = b.
Proof.
  intros [Hnd _]. induction ts as [|t ts IH]; intros Ha Hb Heq; [destruct Ha|].
  cbn [map] in Hnd. inversion Hnd as [|? ? Hnotin Hnd']; subst.
  destruct Ha as [->|Ha], Hb as [->|Hb].
  - reflexivity.
  - exfalso. apply Hnotin. rewrite Heq. apply in_map. exact Hb.
  - exfalso. apply Hnotin. rewrite <- Heq. apply in_map. exact Ha.
  - apply IH; assumption.
Qed.

End FreshTimers.

Ltac kf_step :=
  first
    [ apply kf_ret | apply kf_throw | apply kf_gets | apply kf_modify | apply kf_emit
    | apply kf_setTimeout | apply kf_clearTimeout
    | apply kf_when
    | apply kf_try_catch; [|intro]
    | apply kf_bind; [|intro]
    | match goal with
      | |- keeps_fresh (if ?b then _ else _) => destruct b
      | |- keeps_fresh (match ?x with _ => _ end) => destruct x
      end ].

Ltac kf := repeat kf_step.

(* ================================================================== *)
(** ** Further properties: the page                                   *)
(* ================================================================== *)

Module RenderMore.
Import Render RenderFacts.

Lemma kf_observe_each els : keeps_fresh (observe_each els).
Proof. induction els; cbn [observe_each]; kf. assumption. Qed.
Lemma kf_handleScroll : keeps_fresh handleScroll.
Proof. unfold handleScroll. kf. Qed.
Lemma kf_handleMessage m : keeps_fresh (handleMessage m).
Proof. unfold handleMessage. kf. Qed.
Lemma kf_destroy : keeps_fresh destroy.
Proof. unfold destroy. kf. Qed.
Lemma kf_run_callback cb : keeps_fresh (run_callback cb).
Proof. unfold run_callback. kf. all: apply kf_observe_each. Qed.

Lemma page_step_fresh a w w' out :
  Fresh (nextHandle w) (pending w) -> step a w = Some (w', out) ->
  Fresh (nextHandle w') (pending w').
Proof.
  intros HF. destruct a; cbn [step]; unfold exec.
  - destruct (find_timer h (pending w)) as [tm|]; [|discriminate].
    destruct (is_due tm w); [|discriminate].
    destruct (run_callback (callback tm) (dequeue tm w)) as [[r w1] o1] eqn:Er.
    intros H; inversion H; subst. eapply kf_run_callback; [|exact Er].
    cbn. apply Fresh_cancel. exact HF.
  - destruct (now w <=? t); [|discriminate]. intros H; inversion H; subst. exact HF.
  - destruct (handleScroll w) as [[r w1] o1] eqn:Er. intros H; inversion H; subst.
    eapply kf_handleScroll; eauto.
  - unfold handleIntersection, modify. intros H; inversion H; subst. exact HF.
  - destruct (handleMessage message w) as [[r w1] o1] eqn:Er. intros H; inversion H; subst.
    eapply kf_handleMessage; eauto.
  - destruct (scrollToLine line w) as [[r w1] o1] eqn:Er. intros H; inversion H; subst.
    eapply (kf_handleMessage (syncScrollToLine line)); eauto.
  - unfold enable, modify. intros H; inversion H; subst. exact HF.
  - destruct (disable w) as [[r w1] o1] eqn:Er. intros H; inversion H; subst.
    eapply (kf_handleMessage (updateScrollSyncState false)); eauto.
  - destruct (destroy w) as [[r w1] o1] eqn:Er. intros H; inversion H; subst.
    eapply kf_destroy; eauto.
  - intros H; inversion H; subst. exact HF.
  - intros H; inversion H; subst. exact HF.
Qed.

Lemma page_reachable_fresh w : reachable w -> Fresh (nextHandle w) (pending w).
Proof.
  induction 1 as [doc api t0 | w a w' out _ IH Hs].
  - split; [constructor | intros tm []].
  - eapply page_step_fresh; eauto.
Qed.

(** *** Top-line selection: the first minimum wins *)

Lemma top_step_keeps acc_l t post :
  (forall l' i', In (l', i') post -> (0 <= top i')%Q -> (t <= top i')%Q) ->
  fold_left top_step post (Some acc_l, Some t) = (Some acc_l, Some t).
Proof.
  induction post as [|[l' i'] post IH]; intros Hge; [reflexivity|].
  cbn [fold_left]. unfold top_step at 2. cbn [snd below_minTop].
  destruct (Qle_bool 0 (top i')) eqn:Hpos; cbn [andb].
  - apply Qle_bool_iff in Hpos.
    destruct (Qlt_bool (top i') t) eqn:Hlt.
    + apply Qlt_bool_iff in Hlt. exfalso.
      assert (Hle : (t <= top i')%Q) by (apply (Hge l' i'); [left; reflexivity | exact Hpos]).
      exact (Qlt_not_le _ _ Hlt Hle).
    + apply IH. intros l2 i2 Hin. apply (Hge l2 i2). right. exact Hin.
  - apply IH. intros l2 i2 Hin. apply (Hge l2 i2). right. exact Hin.
Qed.

(** X1. [getTopVisibleLine] compares with a strict [<], so among the
    visible entries with [top >= 0] the first one, in the map's
    insertion order, that reaches the least [top] is the line returned:
    an entry inserted later with the same [top] does not replace it. *)
Theorem top_line_first_minimum_wins (p : Page) pre l info post :
  visibleElements p = pre ++ (l, info) :: post ->
  (0 <= top info)%Q ->
  (forall l' i', In (l', i') pre -> (0 <= top i')%Q -> (top info < top i')%Q) ->
  (forall l' i', In (l', i') post -> (0 <= top i')%Q -> (top info <= top i')%Q) ->
  getTopVisibleLine p = Some l.
Proof.
  intros Hm Hpos Hpre Hpost.
  rewrite getTopVisibleLine_scan, Hm, fold_left_app. cbn [fold_left].
  pose proof (scan_ok_fold pre [] (None, None)) as Hok. cbn [app] in Hok.
  specialize (Hok (fun l0 i0 (H : In (l0, i0) []) => match H with end)).
  assert (Hstep : top_step (fold_left top_step pre (None, None)) (l, info)
                  = (Some l, Some (top info))).
  { set (acc := fold_left top_step pre (None, None)) in *.
    unfold top_step. apply Qle_bool_iff in Hpos. rewrite Hpos. cbn [andb].
    destruct acc as [[l0|] [t0|]];
      cbn in Hok |- *; try contradiction; [|reflexivity].
    destruct Hok as [[i0 [Hin0 Ht0]] [Hp0 _]]. subst t0.
    assert (Hlt : Qlt_bool (top info) (top i0) = true).
    { apply Qlt_bool_iff. eapply Hpre; eauto. }
    rewrite Hlt. reflexivity. }
  rewrite Hstep. rewrite top_step_keeps by exact Hpost. reflexivity.
Qed.

Lemma top_line_first_minimum_wins_witness :
  getTopVisibleLine
    (set_visibleElements [(3, info_at 3 50); (9, info_at 9 5); (12, info_at 12 5)]
                         (initial [] true)) = Some 9.
Proof.
  apply (top_line_first_minimum_wins _ [(3, info_at 3 50)] 9 (info_at 9 5) [(12, info_at 12 5)]).
  - reflexivity.
  - cbn. discriminate.
  - intros l' i' [Heq|[]] _. inversion Heq. reflexivity.
  - intros l' i' [Heq|[]] _. inversion Heq. cbn. discriminate.
Defined.

(** *** One timer of each kind *)

(** X2. In every world of the page's loop at most one release timer and
    at most one trailing-scroll timer is pending: two pending timers
    with the same callback, other than re-observation, are the same
    timer. *)
Theorem page_one_timer_per_kind (w : W) (a b : Timer Callback) :
  reachable w -> In a (pending w) -> In b (pending w) ->
  callback a = callback b -> callback a <> Reobserve -> a = b.
Proof.
  intros Hr Ha Hb Hcb Hk.
  pose proof (page_reachable_inv w Hr) as HI.
  pose proof (page_reachable_fresh w Hr) as HF.
  apply (Fresh_same_handle _ _ a b HF Ha Hb).
  destruct (callback a) eqn:Ea; [| |contradiction].
  - pose proof (inv_release w HI a Ha Ea) as H1.
    pose proof (inv_release w HI b Hb (eq_sym Hcb)) as H2. congruence.
  - pose proof (inv_trailing w HI a Ha Ea) as H1.
    pose proof (inv_trailing w HI b Hb (eq_sym Hcb)) as H2. congruence.
Qed.

(** *** Scroll bursts *)


Lemma page_one_timer_per_kind_witness :
  mkTimer 2%nat 16 TrailingScroll = mkTimer 2%nat 16 TrailingScroll.
Proof.
  apply (page_one_timer_per_kind scrolled_world).
  - apply page_reachable_after. apply page_reachable_after. apply reach_start.
  - right. left. reflexivity.
  - right. left. reflexivity.
  - reflexivity.
  - discriminate.
Defined.


(** *** The trailing call does not look at the lock *)

Lemma getTopVisibleLine_same (p q : Page) :
  visibleElements p = visibleElements q -> getTopVisibleLine p = getTopVisibleLine q.
Proof. unfold getTopVisibleLine. intros ->. reflexivity. Qed.

(** [syncScrollToEditor] when the top visible line is new. *)
Lemma syncScrollToEditor_new_line (w : W) (l : Z) :
  getTopVisibleLine (fields w) = Some l ->
  l <> currentTopLine (fields w) ->
  exists w',
    syncScrollToEditor w
      = (Returned tt, w', if vscode (fields w) then [PostMessage l] else []) /\
    fields w' = set_syncTimeout (Some (nextHandle w))
                  (set_syncSource (Some preview)
                     (set_isSyncing true (set_currentTopLine l (fields w)))) /\
    now w' = now w /\
    In (mkTimer (nextHandle w) (now w + SYNC_BLOCK_MS) ReleaseSync) (pending w').
Proof.
  intros Ht Hne. apply Z.eqb_neq in Hne.
  unfold syncScrollToEditor, sendScrollMessage. js_unfold. cbn.
  rewrite Ht. cbn. rewrite Hne.
  split_run;
    (eexists; split; [reflexivity|]; cbn; repeat split;
     apply in_or_app; right; left; reflexivity).
Qed.

(** X4. The trailing call does not look at the lock.  When it runs with
    the bridge up and a top visible line that differs from
    CurrentTopLine, it posts that line whatever the lock's state, and
    leaves the lock held with source [preview]. *)
Theorem trailing_call_ignores_lock (w : W) (tm : Timer Callback) (l : Z) :
  find_timer (handle tm) (pending w) = Some tm ->
  callback tm = TrailingScroll ->
  is_due tm w = true ->
  vscode (fields w) = true ->
  getTopVisibleLine (fields w) = Some l ->
  l <> currentTopLine (fields w) ->
  exists w',
    step (Fire (handle tm)) w = Some (w', [PostMessage l]) /\
    isSyncing (fields w') = true /\
    syncSource (fields w') = Some preview /\
    currentTopLine (fields w') = l /\
    scrollTimeout (fields w') = None.
Proof.
  intros Hf Hcb Hdue Hv Ht Hne.
  cbn [step]. rewrite Hf, Hdue, Hcb.
  unfold exec, run_callback. unfold bind at 1. unfold modify at 1.
  set (w0 := mkWorld (set_scrollTimeout None (fields (dequeue tm w))) _ _ _).
  destruct (syncScrollToEditor_new_line w0 l) as (w' & Hrun & Hfields & _).
  - rewrite <- Ht. apply getTopVisibleLine_same. reflexivity.
  - exact Hne.
  - rewrite Hrun. cbn [fields w0 dequeue set_scrollTimeout vscode]. rewrite Hv.
    exists w'. split; [reflexivity|]. rewrite Hfields. cbn. auto.
Qed.

Lemma trailing_call_ignores_lock_witness :
  isSyncing (fields crossed_world) = true /\
  syncSource (fields crossed_world) = Some editor /\
  exists w', step (Fire 3) crossed_world = Some (w', [PostMessage 9]) /\
             syncSource (fields w') = Some preview.
Proof.
  split; [reflexivity|]. split; [reflexivity|].
  destruct (trailing_call_ignores_lock crossed_world (mkTimer 3%nat 56 TrailingScroll) 9)
    as (w' & Hstep & _ & Hsrc & _).
  - reflexivity.
  - reflexivity.
  - reflexivity.
  - reflexivity.
  - vm_compute. reflexivity.
  - vm_compute. discriminate.
  - exists w'. split; [exact Hstep | exact Hsrc].
Defined.

(** *** Deduplication by CurrentTopLine *)

Lemma syncScrollToEditor_same_line (w : W) :
  getTopVisibleLine (fields w) = Some (currentTopLine (fields w)) ->
  syncScrollToEditor w = (Returned tt, w, []).
Proof.
  intros H. unfold syncScrollToEditor. js_unfold. cbn. rewrite H. cbn.
  rewrite Z.eqb_refl. reflexivity.
Qed.

(** X5. [syncScrollToEditor] run twice in a row sends at most once: the
    first run records the line it sends in CurrentTopLine, so a second
    run on the world it leaves is a no-op. *)
Theorem syncScrollToEditor_twice (w w1 : W) (out : list Effect) :
  exec syncScrollToEditor w = (w1, out) ->
  syncScrollToEditor w1 = (Returned tt, w1, []).
Proof.
  unfold exec. destruct (getTopVisibleLine (fields w)) as [l|] eqn:Ht.
  - destruct (l =? currentTopLine (fields w)) eqn:Heq.
    + apply Z.eqb_eq in Heq. subst l.
      rewrite (syncScrollToEditor_same_line w Ht). intros H; inversion H; subst.
      apply syncScrollToEditor_same_line. exact Ht.
    + apply Z.eqb_neq in Heq.
      destruct (syncScrollToEditor_new_line w l Ht Heq) as (w' & Hrun & Hfields & _).
      rewrite Hrun. intros H; inversion H; subst.
      apply syncScrollToEditor_same_line. rewrite Hfields. cbn [currentTopLine set_syncTimeout set_syncSource set_isSyncing set_currentTopLine].
      rewrite <- Ht. apply getTopVisibleLine_same. reflexivity.
  - rewrite (syncScrollToEditor_None w Ht). intros H; inversion H; subst.
    apply syncScrollToEditor_None. exact Ht.
Qed.

Lemma syncScrollToEditor_twice_witness :
  syncScrollToEditor (fst (exec syncScrollToEditor tracking_world))
  = (Returned tt, fst (exec syncScrollToEditor tracking_world), []).
Proof.
  apply (syncScrollToEditor_twice tracking_world _ (snd (exec syncScrollToEditor tracking_world))).
  reflexivity.
Defined.

(** *** The bridge to the extension is down *)

(** X6. With [window.vscode] unavailable, [syncScrollToEditor] still
    records a new top line in CurrentTopLine and arms the lock, but
    posts nothing; once the bridge is back the same line is not sent,
    because it now equals CurrentTopLine. *)
Theorem line_found_while_bridge_down_is_lost (w : W) (l : Z) :
  vscode (fields w) = false ->
  getTopVisibleLine (fields w) = Some l ->
  l <> currentTopLine (fields w) ->
  exists w1,
    exec syncScrollToEditor w = (w1, []) /\
    currentTopLine (fields w1) = l /\
    isSyncing (fields w1) = true /\
    syncSource (fields w1) = Some preview /\
    In (mkTimer (nextHandle w) (now w + SYNC_BLOCK_MS) ReleaseSync) (pending w1) /\
    exec syncScrollToEditor (fst (update_globals (set_vscode true) w1))
      = (fst (update_globals (set_vscode true) w1), []).
Proof.
  intros Hv Ht Hne.
  destruct (syncScrollToEditor_new_line w l Ht Hne) as (w1 & Hrun & Hfields & _ & Hin).
  rewrite Hv in Hrun. exists w1. unfold exec at 1. rewrite Hrun.
  split; [reflexivity|]. rewrite Hfields. cbn [currentTopLine isSyncing syncSource set_syncTimeout set_syncSource set_isSyncing set_currentTopLine].
  repeat split; [exact Hin|].
  unfold exec. rewrite syncScrollToEditor_same_line; [reflexivity|].
  cbn [update_globals fst fields]. rewrite Hfields. cbn [currentTopLine set_vscode set_syncTimeout set_syncSource set_isSyncing set_currentTopLine].
  rewrite <- Ht. apply getTopVisibleLine_same. reflexivity.
Qed.

Lemma line_found_while_bridge_down_is_lost_witness :
  exists w1, exec syncScrollToEditor offline_world = (w1, []) /\
             currentTopLine (fields w1) = 9.
Proof.
  destruct (line_found_while_bridge_down_is_lost offline_world 9)
    as (w1 & Hrun & Hc & _).
  - reflexivity.
  - reflexivity.
  - cbn. discriminate.
  - exists w1. split; assumption.
Defined.

(** [scrollToLine] when the line is accepted. *)
Lemma scrollToLine_accepted (w : W) (ln : Z) (el : Node) :
  isEnabled (fields w) = true ->
  isSyncing (fields w) && is_source preview (syncSource (fields w)) = false ->
  querySelector_line ln (document (fields w)) = Some el ->
  exists w1,
    scrollToLine ln w = (Returned tt, w1, [ScrollIntoView el]) /\
    fields w1 = set_syncTimeout (Some (nextHandle w))
                  (set_currentTopLine ln
                     (set_syncSource (Some editor) (set_isSyncing true (fields w)))) /\
    now w1 = now w /\
    nextHandle w1 = Datatypes.S (nextHandle w) /\
    pending w1 =
      match syncTimeout (fields w) with
      | Some h => cancel h (pending w)
      | None => pending w
      end ++ [mkTimer (nextHandle w) (now w + SYNC_BLOCK_MS) ReleaseSync].
Proof.
  intros He Hl Hq. unfold scrollToLine. js_unfold. cbn.
  rewrite He. cbn. rewrite Hl. cbn. rewrite Hq.
  split_run; (eexists; split; [reflexivity|]; cbn; repeat split).
Qed.

(** *** No echo of an inbound line *)



(** *** The main script's listener *)



(** *** A disabled page is quiet *)

Ltac dormant_close Hd :=
  let He := fresh "He" in
  cbn; intros He; try discriminate;
  try (match goal with Hb : negb (isEnabled _) = false |- _ => rewrite He in Hb; discriminate end);
  let Hs := fresh "Hs" in let Hre := fresh "Hre" in
  destruct (Hd He) as [Hs Hre];
  split; [ first [reflexivity | assumption]
         | let tm := fresh "tm" in let Hin := fresh "Hin" in
           intros tm Hin; inv_tac; subst; cbn; first [reflexivity | auto] ].

Lemma page_step_dormant a w w' out :
  Inv w -> Dormant w -> step a w = Some (w', out) -> Dormant w'.
Proof.
  intros [F S1 S2 R R' T T' Wd L] Hd. unfold Dormant in *.
  destruct a; cbn [step]; unfold exec.
  - destruct (find_timer h (pending w)) as [tm|] eqn:Ef; [|discriminate].
    destruct (is_due tm w); [|discriminate].
    apply find_timer_In in Ef. destruct Ef as [Hin _].
    destruct (callback tm) eqn:Ecb; unfold run_callback.
    + js_unfold. cbn. intros H; inversion H; subst; clear H. dormant_close Hd.
    + unfold syncScrollToEditor, sendScrollMessage. js_unfold.
      split_run; intros H; inversion H; subst; clear H; cbn; intros He;
        destruct (Hd He) as [_ Hre]; apply Hre in Hin; congruence.
    + unfold observeElements. js_unfold. cbn.
      destruct (document (fields w)); cbn;
        [|destruct (observer (fields w)); cbn; [rewrite observe_each_run|]];
        intros H; inversion H; subst; clear H; dormant_close Hd.
  - destruct (now w <=? t); [|discriminate]. intros H; inversion H; subst. exact Hd.
  - unfold handleScroll, syncScrollToEditor, sendScrollMessage. js_unfold.
    split_run; intros H; inversion H; subst; clear H; dormant_close Hd.
  - unfold handleIntersection. js_unfold. intros H; inversion H; subst; clear H.
    dormant_close Hd.
  - destruct message as [ln|[|]| |]; unfold handleMessage.
    + unfold scrollToLine. js_unfold.
      split_run; intros H; inversion H; subst; clear H; dormant_close Hd.
    + unfold enable. js_unfold. intros H; inversion H; subst; clear H. cbn. discriminate.
    + unfold disable. js_unfold.
      split_run; intros H; inversion H; subst; clear H; cbn; intros _;
        (split; [reflexivity|]); intros tm Hin; inv_tac;
        pose proof (R _ Hin); pose proof (T _ Hin);
        destruct (callback tm); try reflexivity; spec_triv; congruence.
    + unfold reobserveElements. js_unfold.
      split_run; intros H; inversion H; subst; clear H; dormant_close Hd.
    + js_unfold. intros H; inversion H; subst; clear H. exact Hd.
  - unfold scrollToLine. js_unfold.
    split_run; intros H; inversion H; subst; clear H; dormant_close Hd.
  - unfold enable. js_unfold. intros H; inversion H; subst; clear H. cbn. discriminate.
  - unfold disable. js_unfold.
    split_run; intros H; inversion H; subst; clear H; cbn; intros _;
      (split; [reflexivity|]); intros tm Hin; inv_tac;
      pose proof (R _ Hin); pose proof (T _ Hin);
      destruct (callback tm); try reflexivity; spec_triv; congruence.
  - unfold destroy. js_unfold.
    split_run; intros H; inversion H; subst; clear H; cbn; intros _;
      (split; [reflexivity|]); intros tm Hin; inv_tac;
      pose proof (R _ Hin); pose proof (T _ Hin);
      destruct (callback tm); try reflexivity; spec_triv; congruence.
  - intros H; inversion H; subst. exact Hd.
  - intros H; inversion H; subst. exact Hd.
Qed.

Lemma page_reachable_dormant w : reachable w -> Dormant w.
Proof.
  induction 1 as [doc api t0 | w a w' out Hr IH Hs].
  - unfold Dormant. cbn. discriminate.
  - eapply page_step_dormant; eauto. apply page_reachable_inv. exact Hr.
Qed.

Ltac quiet_close :=
  cbn; split;
  [ let e := fresh "e" in let Hin := fresh "Hin" in
    intros e Hin; cbn in Hin;
    repeat (destruct Hin as [<-|Hin]; [reflexivity|]);
    first [ contradiction
          | apply in_map_iff in Hin; destruct Hin as (? & <- & _); reflexivity ]
  | first [reflexivity | assumption] ].

(** X9. While the page is disabled, no turn of its loop posts a message
    to the extension or scrolls the preview, and the lock stays free. *)
Theorem disabled_page_is_quiet (w : W) (a : Action) (w' : W) (out : list Effect) :
  reachable w -> isEnabled (fields w) = false -> step a w = Some (w', out) ->
  (forall e, In e out -> outbound e = false) /\ isSyncing (fields w') = false.
Proof.
  intros Hr He.
  destruct (page_reachable_dormant w Hr He) as [Hs Hre].
  destruct a; cbn [step]; unfold exec.
  - destruct (find_timer h (pending w)) as [tm|] eqn:Ef; [|discriminate].
    destruct (is_due tm w); [|discriminate].
    apply find_timer_In in Ef. destruct Ef as [Hin _].
    rewrite (Hre tm Hin). unfold run_callback, observeElements. js_unfold. cbn.
    destruct (document (fields w)); cbn;
      [|destruct (observer (fields w)); cbn; [rewrite observe_each_run|]];
      intros H; inversion H; subst; clear H; quiet_close.
  - destruct (now w <=? t); [|discriminate]. intros H; inversion H; subst. quiet_close.
  - unfold handleScroll. js_unfold. cbn. rewrite He. cbn.
    intros H; inversion H; subst. quiet_close.
  - unfold handleIntersection. js_unfold. intros H; inversion H; subst. quiet_close.
  - destruct message as [ln|[|]| |]; unfold handleMessage.
    + unfold scrollToLine. js_unfold. cbn. rewrite He. cbn.
      intros H; inversion H; subst. quiet_close.
    + unfold enable. js_unfold. intros H; inversion H; subst. quiet_close.
    + unfold disable. js_unfold.
      split_run; intros H; inversion H; subst; quiet_close.
    + unfold reobserveElements. js_unfold.
      split_run; intros H; inversion H; subst; quiet_close.
    + js_unfold. intros H; inversion H; subst. quiet_close.
  - unfold scrollToLine. js_unfold. cbn. rewrite He. cbn.
    intros H; inversion H; subst. quiet_close.
  - unfold enable. js_unfold. intros H; inversion H; subst. quiet_close.
  - unfold disable. js_unfold.
    split_run; intros H; inversion H; subst; quiet_close.
  - unfold destroy. js_unfold.
    split_run; intros H; inversion H; subst; quiet_close.
  - intros H; inversion H; subst. quiet_close.
  - intros H; inversion H; subst. quiet_close.
Qed.

Lemma disabled_page_is_quiet_witness :
  exists w', step OnScroll disabled_world = Some (w', []) /\
             isSyncing (fields w') = false.
Proof.
  destruct (disabled_page_is_quiet disabled_world OnScroll
              (after OnScroll disabled_world) []) as [_ Hs].
  - repeat apply page_reachable_after. apply reach_start.
  - vm_compute. reflexivity.
  - vm_compute. reflexivity.
  - exists (after OnScroll disabled_world). split; [vm_compute; reflexivity | exact Hs].
Defined.

(** *** What a posted line leaves behind *)

Ltac no_post Hin :=
  cbn in Hin;
  repeat (destruct Hin as [Hin|Hin]; [try discriminate|]);
  first [ contradiction
        | apply in_map_iff in Hin; destruct Hin as (? & Hin & _); discriminate ].

Lemma syncScrollToEditor_post (w : W) r w' out l :
  syncScrollToEditor w = (r, w', out) -> In (PostMessage l) out -> Posted w w' out l.
Proof.
  destruct (getTopVisibleLine (fields w)) as [l0|] eqn:Ht.
  - destruct (l0 =? currentTopLine (fields w)) eqn:Heq.
    + apply Z.eqb_eq in Heq. subst l0.
      rewrite (syncScrollToEditor_same_line w Ht). intros H Hin; inversion H; subst. destruct Hin.
    + apply Z.eqb_neq in Heq.
      destruct (syncScrollToEditor_new_line w l0 Ht Heq) as (w1 & Hrun & Hf & Hn & Hin1).
      rewrite Hrun. intros H Hin; inversion H; subst.
      destruct (vscode (fields w)) eqn:Hv; [|destruct Hin].
      destruct Hin as [Hin|[]]. inversion Hin; subst.
      unfold Posted. rewrite Hf. cbn. repeat split; auto.
  - rewrite (syncScrollToEditor_None w Ht). intros H Hin; inversion H; subst. destruct Hin.
Qed.

Lemma handleScroll_post (w : W) r w' out l :
  handleScroll w = (r, w', out) -> In (PostMessage l) out -> Posted w w' out l.
Proof.
  unfold handleScroll. unfold bind at 1. unfold gets at 1.
  destruct (negb (isEnabled (fields w))); [intros H Hin; inversion H; subst; destruct Hin|].
  unfold bind at 1. unfold gets at 1. unfold bind at 1. unfold gets at 1.
  destruct (isSyncing (fields w) && is_source editor (syncSource (fields w)));
    [intros H Hin; inversion H; subst; destruct Hin|].
  unfold bind at 1. unfold gets at 1.
  destruct (scrollTimeout (fields w)) as [h|].
  - js_unfold. cbn. intros H Hin; inversion H; subst. destruct Hin.
  - cbn [truthy negb when]. unfold bind at 1. unfold ret at 1.
    unfold bind at 1.
    destruct (syncScrollToEditor w) as [[[[]|e] w1] o1] eqn:Er.
    + js_unfold. cbn. intros H Hin; inversion H; subst. clear H.
      rewrite app_nil_r in Hin. rewrite app_nil_r.
      destruct (syncScrollToEditor_post w _ _ _ l Er Hin) as (H1 & H2 & H3 & H4 & H5 & H6 & H7 & H8 & H9).
      unfold Posted. cbn. repeat split; auto.
      apply in_or_app. left. exact H9.
    + intros H Hin; inversion H; subst.
      destruct (syncScrollToEditor_post w _ _ _ l Er Hin) as (H1 & H2 & H3 & H4 & H5 & H6 & H7 & H8 & H9).
      unfold Posted. repeat split; auto.
Qed.

Lemma run_callback_post (w : W) cb r w' out l :
  run_callback cb w = (r, w', out) -> In (PostMessage l) out ->
  cb = TrailingScroll /\ Posted w w' out l.
Proof.
  destruct cb; unfold run_callback.
  - js_unfold. cbn. intros H Hin; inversion H; subst. destruct Hin.
  - unfold bind at 1. unfold modify at 1.
    set (w0 := mkWorld (set_scrollTimeout None (fields w)) (now w) (nextHandle w) (pending w)).
    destruct (syncScrollToEditor w0) as [[r1 w1] o1] eqn:Er.
    intros H Hin. cbn in H. inversion H; subst. clear H.
    destruct (syncScrollToEditor_post w0 _ _ _ l Er Hin)
      as (H1 & H2 & H3 & H4 & H5 & H6 & H7 & H8 & H9).
    split; [reflexivity|]. unfold Posted. repeat split; auto.
  - unfold observeElements. js_unfold. cbn.
    destruct (document (fields w)); cbn;
      [|destruct (observer (fields w)); cbn; [rewrite observe_each_run|]];
      intros H Hin; inversion H; subst; no_post Hin.
Qed.

(** X10. Whenever a turn of the page's loop posts a line, it is a scroll
    event or a trailing call; the line is the top visible one and
    differs from the CurrentTopLine before the turn, it is the only
    message of the turn, and after the turn it is CurrentTopLine, the
    lock is held with source [preview] and its release timer is pending,
    due one block window ahead. *)
Theorem page_post_records_line_and_arms_lock
    (w : W) (a : Action) (w' : W) (out : list Effect) (l : Z) :
  step a w = Some (w', out) -> In (PostMessage l) out ->
  (a = OnScroll \/
   exists tm, a = Fire (handle tm) /\ In tm (pending w) /\ callback tm = TrailingScroll) /\
  out = [PostMessage l] /\
  vscode (fields w) = true /\
  getTopVisibleLine (fields w) = Some l /\
  l <> currentTopLine (fields w) /\
  currentTopLine (fields w') = l /\
  isSyncing (fields w') = true /\
  syncSource (fields w') = Some preview /\
  syncTimeout (fields w') = Some (nextHandle w) /\
  In (mkTimer (nextHandle w) (now w + SYNC_BLOCK_MS) ReleaseSync) (pending w').
Proof.
  destruct a; cbn [step]; unfold exec.
  - destruct (find_timer h (pending w)) as [tm|] eqn:Ef; [|discriminate].
    destruct (is_due tm w); [|discriminate].
    apply find_timer_In in Ef. destruct Ef as [Hin Hh].
    destruct (run_callback (callback tm) (dequeue tm w)) as [[r w1] o1] eqn:Er.
    intros H Hp. inversion H; subst. clear H.
    destruct (run_callback_post _ _ _ _ _ l Er Hp)
      as (Hcb & H1 & H2 & H3 & H4 & H5 & H6 & H7 & H8 & H9).
    split; [right; exists tm; auto|]. repeat split; auto.
  - destruct (now w <=? t); [|discriminate]. intros H Hp; inversion H; subst. destruct Hp.
  - destruct (handleScroll w) as [[r w1] o1] eqn:Er.
    intros H Hp. inversion H; subst. clear H.
    split; [left; reflexivity|]. exact (handleScroll_post w _ _ _ l Er Hp).
  - unfold handleIntersection. js_unfold. intros H Hp; inversion H; subst. destruct Hp.
  - destruct message as [ln|[|]| |]; unfold handleMessage.
    + unfold scrollToLine. js_unfold. split_run; intros H Hp; inversion H; subst; no_post Hp.
    + unfold enable. js_unfold. intros H Hp; inversion H; subst; no_post Hp.
    + unfold disable. js_unfold. split_run; intros H Hp; inversion H; subst; no_post Hp.
    + unfold reobserveElements. js_unfold.
      split_run; intros H Hp; inversion H; subst; no_post Hp.
    + js_unfold. intros H Hp; inversion H; subst; no_post Hp.
  - unfold scrollToLine. js_unfold. split_run; intros H Hp; inversion H; subst; no_post Hp.
  - unfold enable. js_unfold. intros H Hp; inversion H; subst; no_post Hp.
  - unfold disable. js_unfold. split_run; intros H Hp; inversion H; subst; no_post Hp.
  - unfold destroy. js_unfold. split_run; intros H Hp; inversion H; subst; no_post Hp.
  - intros H Hp; inversion H; subst; no_post Hp.
  - intros H Hp; inversion H; subst; no_post Hp.
Qed.

Lemma page_post_records_line_and_arms_lock_witness :
  currentTopLine (fields scrolled_world) = 9 /\
  syncSource (fields scrolled_world) = Some preview /\
  In (mkTimer 1%nat 30 ReleaseSync) (pending scrolled_world).
Proof.
  destruct (page_post_records_line_and_arms_lock tracking_world OnScroll scrolled_world
              [PostMessage 9] 9)
    as (_ & _ & _ & _ & _ & Hc & _ & Hsrc & _ & Hin).
  - vm_compute. reflexivity.
  - left. reflexivity.
  - split; [exact Hc|]. split; [exact Hsrc | exact Hin].
Defined.

(** *** Content updates *)



(** *** A destroyed instance keeps its listeners *)

Lemma destroy_run (w : W) :
  exists w1 out,
    destroy w = (Returned tt, w1, out) /\
    isEnabled (fields w1) = false /\
    isSyncing (fields w1) = false /\
    syncSource (fields w1) = None /\
    observer (fields w1) = None /\
    visibleElements (fields w1) = [] /\
    document (fields w1) = document (fields w).
Proof.
  unfold destroy. js_unfold.
  split_run; (do 2 eexists; split; [reflexivity|]); cbn; repeat split; assumption.
Qed.

(** X12. [destroy()] does not remove the listeners that [init()] added.
    A destroyed instance ignores an inbound line, since it is disabled;
    but an [updateScrollSyncState] message with [enabled] set enables
    it again, and the next inbound line for an element of the document
    is scrolled to and arms the lock. *)
Theorem destroyed_instance_revives_on_enable_message (w : W) (ln : Z) (el : Node) :
  querySelector_line ln (document (fields w)) = Some el ->
  exists w1 w2 w3 out,
    exec destroy w = (w1, out) /\
    isEnabled (fields w1) = false /\
    observer (fields w1) = None /\
    exec (handleMessage (syncScrollToLine ln)) w1 = (w1, []) /\
    exec (handleMessage (updateScrollSyncState true)) w1 = (w2, []) /\
    exec (handleMessage (syncScrollToLine ln)) w2 = (w3, [ScrollIntoView el]) /\
    isSyncing (fields w3) = true /\
    syncSource (fields w3) = Some editor.
Proof.
  intros Hq.
  destruct (destroy_run w) as (w1 & out & Hrun & He & Hs & Hsrc & Ho & _ & Hdoc).
  set (w2 := mkWorld (set_isEnabled true (fields w1)) (now w1) (nextHandle w1) (pending w1)).
  destruct (scrollToLine_accepted w2 ln el) as (w3 & Hrun3 & Hf3 & _).
  - reflexivity.
  - unfold w2. cbn. rewrite Hs. reflexivity.
  - unfold w2. cbn. rewrite Hdoc. exact Hq.
  - exists w1, w2, w3, out. unfold exec. rewrite Hrun.
    split; [reflexivity|]. split; [exact He|]. split; [exact Ho|]. split.
    + unfold handleMessage, scrollToLine. unfold bind at 1. unfold gets at 1.
      rewrite He. reflexivity.
    + split; [reflexivity|]. split.
      * unfold handleMessage. rewrite Hrun3. reflexivity.
      * rewrite Hf3. split; reflexivity.
Qed.

Lemma destroyed_instance_revives_on_enable_message_witness :
  exists w1 w2 w3 out,
    exec destroy tracking_world = (w1, out) /\
    exec (handleMessage (updateScrollSyncState true)) w1 = (w2, []) /\
    exec (handleMessage (syncScrollToLine 7)) w2 = (w3, [ScrollIntoView (node 7)]).
Proof.
  destruct (destroyed_instance_revives_on_enable_message tracking_world 7 (node 7))
    as (w1 & w2 & w3 & out & H1 & _ & _ & _ & H2 & H3 & _).
  - vm_compute. reflexivity.
  - exists w1, w2, w3, out. split; [exact H1|]. split; [exact H2 | exact H3].
Defined.

End RenderMore.

(* ================================================================== *)
(** ** Further properties: the manager                                *)
(* ================================================================== *)

Module HostMore.
Import Host HostFacts.

Lemma kf_clearSyncTimeout : keeps_fresh clearSyncTimeout.
Proof. unfold clearSyncTimeout. kf. Qed.

Lemma kf_syncToPreview l : keeps_fresh (syncToPreview l).
Proof. unfold syncToPreview. kf. Qed.

Lemma kf_handleEditorScroll ed : keeps_fresh (handleEditorScroll ed).
Proof. unfold handleEditorScroll. kf. Qed.

Lemma kf_syncToEditor ln : keeps_fresh (syncToEditor ln).
Proof. unfold syncToEditor, revealRange. kf. Qed.

Lemma kf_disable : keeps_fresh disable.
Proof. unfold disable. kf. Qed.

Lemma kf_dispose_each ds : keeps_fresh (dispose_each ds).
Proof. induction ds; cbn [dispose_each]; kf. assumption. Qed.

Lemma kf_dispose : keeps_fresh dispose.
Proof. unfold dispose. kf. apply kf_dispose_each. Qed.

Lemma host_step_fresh a w w' out :
  Fresh (nextHandle w) (pending w) -> step a w = Some (w', out) ->
  Fresh (nextHandle w') (pending w').
Proof.
  intros HF. destruct a; cbn [step]; unfold exec.
  - destruct (find_timer h (pending w)) as [tm|]; [|discriminate].
    destruct (is_due tm w); [|discriminate].
    destruct (callback tm). unfold run_callback. js_unfold. cbn.
    intros H; inversion H; subst. cbn. apply Fresh_cancel. exact HF.
  - destruct (now w <=? t); [|discriminate]. intros H; inversion H; subst. exact HF.
  - rewrite onDidChange_run. destruct (same_document _ _).
    + destruct (handleEditorScroll ed w) as [[r w1] o1] eqn:Er. intros H; inversion H; subst.
      eapply kf_handleEditorScroll; eauto.
    + intros H; inversion H; subst. exact HF.
  - destruct message as [ln|]; unfold onDidReceiveMessage.
    + destruct (syncToEditor ln w) as [[r w1] o1] eqn:Er. intros H; inversion H; subst.
      eapply kf_syncToEditor; eauto.
    + intros H; inversion H; subst. exact HF.
  - unfold enable, modify. intros H; inversion H; subst. exact HF.
  - destruct (disable w) as [[r w1] o1] eqn:Er. intros H; inversion H; subst.
    eapply kf_disable; eauto.
  - destruct (dispose w) as [[r w1] o1] eqn:Er. intros H; inversion H; subst.
    eapply kf_dispose; eauto.
  - intros H; inversion H; subst. exact HF.
Qed.

Lemma host_reachable_fresh w : reachable w -> Fresh (nextHandle w) (pending w).
Proof.
  induction 1 as [ds cur eds t0 | w a w' out _ IH Hs].
  - split; [constructor | intros tm []].
  - eapply host_step_fresh; eauto.
Qed.

(** At most one timer is pending on the manager. *)
(** X13. In every world of the manager's loop at most one timer is
    pending. *)
Theorem host_at_most_one_timer (w : W) (a b : Timer Callback) :
  reachable w -> In a (pending w) -> In b (pending w) -> a = b.
Proof.
  intros Hr Ha Hb.
  pose proof (host_reachable_inv w Hr) as HI.
  apply (Fresh_same_handle _ _ a b (host_reachable_fresh w Hr) Ha Hb).
  pose proof (inv_owner w HI a Ha) as H1. pose proof (inv_owner w HI b Hb) as H2.
  congruence.
Qed.

Lemma host_at_most_one_timer_witness :
  mkTimer 1%nat 30 ReleaseSync = mkTimer 1%nat 30 ReleaseSync.
Proof.
  apply (host_at_most_one_timer inbound_world).
  - apply host_reachable_after. apply reach_start.
  - left. reflexivity.
  - left. reflexivity.
Defined.

(** [syncToEditor] when the line is accepted and the reveal succeeds. *)
Lemma syncToEditor_accepted (w : W) (ln : Z) (ed : TextEditor) :
  _isSyncing (fields w) && is_source editor (_syncSource (fields w)) = false ->
  find (fun e => same_document (document e) (currentDocument (fields w)))
       (visibleTextEditors (fields w)) = Some ed ->
  revealFails ed = false ->
  exists w1,
    syncToEditor ln w
      = (Returned tt, w1,
         [RevealRange ed (range_at (Z.max 0 (Z.min ln (lineCount (document ed) - 1))))]) /\
    fields w1 = set_syncTimeout (Some (nextHandle w))
                  (set_currentLine (Z.max 0 (Z.min ln (lineCount (document ed) - 1)))
                     (set_syncSource (Some preview) (set_isSyncing true (fields w)))) /\
    now w1 = now w /\
    In (mkTimer (nextHandle w) (now w + _SYNC_BLOCK_MS) ReleaseSync) (pending w1).
Proof.
  intros Hl Hf Hr. unfold syncToEditor, revealRange, clearSyncTimeout. js_unfold. cbn.
  rewrite Hl. cbn. rewrite Hf. cbn. rewrite Hr. cbn.
  destruct (_syncTimeout (fields w)); cbn;
    (eexists; split; [reflexivity|]; cbn; repeat split;
     apply in_or_app; right; left; reflexivity).
Qed.

(** X14. [dispose()] on a manager of the loop never throws: each
    listener whose [dispose] does not fail is disposed of, in order, a
    failing one is skipped; afterwards no listener is stored, no timer
    is pending, the lock is free, the line is 0 and synchronisation is
    off. *)
Theorem dispose_releases_everything (w : W) :
  reachable w ->
  exists w',
    dispose w
      = (Returned tt, w',
         map Dispose (filter (fun d => negb (disposeFails d)) (_disposables (fields w)))) /\
    _disposables (fields w') = [] /\
    _syncTimeout (fields w') = None /\
    pending w' = [] /\
    _isSyncing (fields w') = false /\
    _syncSource (fields w') = None /\
    _currentLine (fields w') = 0 /\
    _isEnabled (fields w') = false.
Proof.
  intros Hr. destruct (host_reachable_inv w Hr) as [F S O D L].
  unfold dispose, clearSyncTimeout. js_unfold. cbn.
  destruct (_syncTimeout (fields w)) eqn:E; cbn; rewrite dispose_each_run; cbn;
    rewrite ?app_nil_r; (eexists; split; [reflexivity|]); cbn;
    (split; [reflexivity|]); (split; [first [reflexivity | exact E]|]);
    (split; [|repeat split]).
  - apply no_member_nil. intros tm H. apply In_cancel in H. destruct H as [H Hne].
    apply O in H. congruence.
  - apply no_member_nil. intros tm H. apply O in H. congruence.
Qed.

(** X15. An inbound line that the manager accepts while no visible
    editor shows the tracked document changes nothing but the lock,
    which is free afterwards: nothing is revealed, the line is kept and
    no timer is set or cleared. *)
Theorem inbound_line_without_editor (w : W) (ln : Z) :
  _isSyncing (fields w) && is_source editor (_syncSource (fields w)) = false ->
  find (fun e => same_document (document e) (currentDocument (fields w)))
       (visibleTextEditors (fields w)) = None ->
  syncToEditor ln w
    = (Returned tt,
       mkWorld (set_syncSource None (set_isSyncing false (fields w)))
               (now w) (nextHandle w) (pending w),
       []).
Proof.
  intros Hl Hf. unfold syncToEditor. js_unfold. cbn.
  rewrite Hl. cbn. rewrite Hf. cbn. reflexivity.
Qed.

(** Editor events that [handleEditorScroll] drops. *)
Lemma handleEditorScroll_held (w : W) (ed : TextEditor) :
  _isSyncing (fields w) = true -> _syncSource (fields w) = Some preview ->
  handleEditorScroll ed w = (Returned tt, w, []).
Proof.
  intros Hs Hsrc. unfold handleEditorScroll. js_unfold. cbn.
  destruct (_isEnabled (fields w)); cbn; [|reflexivity].
  destruct (same_document _ _); cbn; [|reflexivity].
  rewrite Hs, Hsrc. reflexivity.
Qed.

Lemma handleEditorScroll_same_line (w : W) (ed : TextEditor) (r : Range) (rest : list Range) :
  _isSyncing (fields w) = false ->
  visibleRanges ed = r :: rest -> line (start r) = _currentLine (fields w) ->
  handleEditorScroll ed w = (Returned tt, w, []).
Proof.
  intros Hs Hv Hline. unfold handleEditorScroll. js_unfold. cbn.
  destruct (_isEnabled (fields w)); cbn; [|reflexivity].
  destruct (same_document _ _); cbn; [|reflexivity].
  rewrite Hs, Hv. cbn. rewrite Hline, Z.eqb_refl. reflexivity.
Qed.

(** X16. When [revealRange] throws, [syncToEditor] swallows the
    exception: nothing is revealed and the line is kept, but the lock is
    armed with source [preview] and its release timer set, so editor
    events are dropped for the block window. *)
Theorem inbound_line_reveal_fails (w : W) (ln : Z) (ed : TextEditor) :
  _isSyncing (fields w) && is_source editor (_syncSource (fields w)) = false ->
  find (fun e => same_document (document e) (currentDocument (fields w)))
       (visibleTextEditors (fields w)) = Some ed ->
  revealFails ed = true ->
  exists w',
    syncToEditor ln w = (Returned tt, w', []) /\
    _currentLine (fields w') = _currentLine (fields w) /\
    _isSyncing (fields w') = true /\
    _syncSource (fields w') = Some preview /\
    _syncTimeout (fields w') = Some (nextHandle w) /\
    In (mkTimer (nextHandle w) (now w + _SYNC_BLOCK_MS) ReleaseSync) (pending w') /\
    forall ed', handleEditorScroll ed' w' = (Returned tt, w', []).
Proof.
  intros Hl Hf Hr. unfold syncToEditor, revealRange, clearSyncTimeout. js_unfold. cbn.
  rewrite Hl. cbn. rewrite Hf. cbn. rewrite Hr. cbn.
  destruct (_syncTimeout (fields w)); cbn;
    (eexists; split; [reflexivity|]; do 4 (split; [reflexivity|]);
     split; [ cbn; apply in_or_app; right; left; reflexivity
            | intros ed'; apply handleEditorScroll_held; reflexivity ]).
Qed.

(** X17. [syncToEditor] does not read the enabled flag: after
    [disable()] a [previewScrolledToLine] message still reveals the
    (clamped) line in the editor, records it and arms the lock, and
    synchronisation stays disabled. *)
Theorem disabled_manager_still_follows_preview (w : W) (ln : Z) (ed : TextEditor) :
  reachable w ->
  find (fun e => same_document (document e) (currentDocument (fields w)))
       (visibleTextEditors (fields w)) = Some ed ->
  revealFails ed = false ->
  exists w1 w2,
    disable w = (Returned tt, w1, []) /\
    exec (onDidReceiveMessage (previewScrolledToLine ln)) w1
      = (w2, [RevealRange ed (range_at (Z.max 0 (Z.min ln (lineCount (document ed) - 1))))]) /\
    _isEnabled (fields w2) = false /\
    _isSyncing (fields w2) = true /\
    _syncSource (fields w2) = Some preview /\
    _currentLine (fields w2) = Z.max 0 (Z.min ln (lineCount (document ed) - 1)).
Proof.
  intros Hr Hf Hrev.
  destruct (host_disable_run w (host_reachable_inv w Hr))
    as (w1 & Hrun & He & Hs & Hsrc & Hst & Hp & Hc & Hn).
  assert (Henv : currentDocument (fields w1) = currentDocument (fields w) /\
                 visibleTextEditors (fields w1) = visibleTextEditors (fields w)).
  { revert Hrun. unfold disable, clearSyncTimeout. js_unfold.
    split_run; intros H; inversion H; subst; cbn; split; reflexivity. }
  destruct Henv as [Hd Hv].
  destruct (syncToEditor_accepted w1 ln ed) as (w2 & Hrun2 & Hf2 & _).
  - rewrite Hs. reflexivity.
  - rewrite Hd, Hv. exact Hf.
  - exact Hrev.
  - exists w1, w2. split; [exact Hrun|].
    unfold exec, onDidReceiveMessage. rewrite Hrun2. split; [reflexivity|].
    rewrite Hf2. cbn. repeat split. exact He.
Qed.

(** X18. The visible-range event that follows a reveal is not sent back
    to the preview: after an inbound line has been revealed, an editor
    event whose top line is the revealed one is dropped while the lock
    is held, and, once the release timer has run, dropped again because
    the line has not changed. *)
Theorem editor_echo_of_inbound_line_dropped
    (w : W) (ln : Z) (ed ed' : TextEditor) (r : Range) (rest : list Range) :
  _isSyncing (fields w) && is_source editor (_syncSource (fields w)) = false ->
  find (fun e => same_document (document e) (currentDocument (fields w)))
       (visibleTextEditors (fields w)) = Some ed ->
  revealFails ed = false ->
  visibleRanges ed' = r :: rest ->
  line (start r) = Z.max 0 (Z.min ln (lineCount (document ed) - 1)) ->
  exists w1 w2,
    exec (syncToEditor ln) w = (w1, [RevealRange ed (range_at (line (start r)))]) /\
    handleEditorScroll ed' w1 = (Returned tt, w1, []) /\
    exec (run_callback ReleaseSync) w1 = (w2, []) /\
    _isSyncing (fields w2) = false /\
    handleEditorScroll ed' w2 = (Returned tt, w2, []).
Proof.
  intros Hl Hf Hrev Hv Hline.
  destruct (syncToEditor_accepted w ln ed Hl Hf Hrev) as (w1 & Hrun & Hf1 & _).
  exists w1. eexists. unfold exec. rewrite Hrun, Hline.
  split; [reflexivity|]. split.
  - apply handleEditorScroll_held; rewrite Hf1; reflexivity.
  - split; [reflexivity|]. split; [reflexivity|].
    apply (handleEditorScroll_same_line _ ed' r rest); [reflexivity | exact Hv |].
    cbn. rewrite Hf1. cbn. exact Hline.
Qed.

Ltac no_post Hin :=
  cbn in Hin;
  repeat (destruct Hin as [Hin|Hin]; [try discriminate|]);
  first [ contradiction
        | apply in_map_iff in Hin; destruct Hin as (? & Hin & _); discriminate ].

(** X19. Whenever a turn of the manager's loop posts a line, it is a
    visible-range event of an editor of the tracked document;
    synchronisation is enabled, the line is the top line of the
    editor's first visible range and differs from the line recorded
    before, it is the only message of the turn, and after the turn it
    is the line recorded, the lock is held with source [editor] and its
    release timer is pending, due one block window ahead. *)
Theorem host_post_records_line_and_arms_lock
    (w : W) (a : Action) (w' : W) (out : list Effect) (l : Z) :
  step a w = Some (w', out) -> In (PostMessage l) out ->
  (exists ed r rest,
     a = OnVisibleRanges ed /\ visibleRanges ed = r :: rest /\ line (start r) = l /\
     same_document (document ed) (currentDocument (fields w)) = true) /\
  out = [PostMessage l] /\
  _isEnabled (fields w) = true /\
  l <> _currentLine (fields w) /\
  _currentLine (fields w') = l /\
  _isSyncing (fields w') = true /\
  _syncSource (fields w') = Some editor /\
  _syncTimeout (fields w') = Some (nextHandle w) /\
  In (mkTimer (nextHandle w) (now w + _SYNC_BLOCK_MS) ReleaseSync) (pending w').
Proof.
  destruct a; cbn [step]; unfold exec.
  - destruct (find_timer h (pending w)) as [tm|]; [|discriminate].
    destruct (is_due tm w); [|discriminate].
    destruct (callback tm). unfold run_callback. js_unfold. cbn.
    intros H Hp; inversion H; subst. destruct Hp.
  - destruct (now w <=? t); [|discriminate]. intros H Hp; inversion H; subst. destruct Hp.
  - rewrite onDidChange_run. destruct (same_document _ _) eqn:Hd.
    + unfold handleEditorScroll, syncToPreview, clearSyncTimeout. js_unfold. cbn.
      destruct (_isEnabled (fields w)) eqn:He; cbn;
        [|intros H Hp; inversion H; subst; destruct Hp].
      rewrite Hd. cbn.
      destruct (_isSyncing (fields w) && is_source preview (_syncSource (fields w))); cbn;
        [intros H Hp; inversion H; subst; destruct Hp|].
      destruct (visibleRanges ed) as [|r rest] eqn:Hv; cbn;
        [intros H Hp; inversion H; subst; destruct Hp|].
      destruct (line (start r) =? _currentLine (fields w)) eqn:Heq; cbn;
        [intros H Hp; inversion H; subst; destruct Hp|].
      apply Z.eqb_neq in Heq.
      destruct (_syncTimeout (fields w)); cbn;
        intros H Hp; inversion H; subst; clear H;
        (destruct Hp as [Hp|[]]); inversion Hp; subst;
        (split; [exists ed, r, rest; auto|]); cbn; repeat split; auto;
        apply in_or_app; right; left; reflexivity.
    + intros H Hp; inversion H; subst. destruct Hp.
  - destruct message as [ln|]; unfold onDidReceiveMessage.
    + unfold syncToEditor, revealRange, clearSyncTimeout. js_unfold.
      split_run; intros H Hp; inversion H; subst; no_post Hp.
    + js_unfold. intros H Hp; inversion H; subst. destruct Hp.
  - unfold enable. js_unfold. intros H Hp; inversion H; subst. destruct Hp.
  - unfold disable, clearSyncTimeout. js_unfold.
    split_run; intros H Hp; inversion H; subst; no_post Hp.
  - unfold dispose, clearSyncTimeout. js_unfold. cbn.
    destruct (_syncTimeout (fields w)); cbn; rewrite dispose_each_run; cbn;
      intros H Hp; inversion H; subst; rewrite ?app_nil_r in Hp; no_post Hp.
  - intros H Hp; inversion H; subst. destruct Hp.
Qed.

Lemma dispose_releases_everything_witness :
  exists w',
    dispose listening_world = (Returned tt, w', [Dispose (mkDisposable 1 false)]) /\
    pending w' = [].
Proof.
  destruct (dispose_releases_everything listening_world) as (w' & Hrun & _ & _ & Hp & _).
  - apply host_reachable_after. apply reach_start.
  - exists w'. split; [exact Hrun | exact Hp].
Defined.

Lemma inbound_line_without_editor_witness :
  _isSyncing (fields closed_world) = true /\
  exists w',
    syncToEditor 3 closed_world = (Returned tt, w', []) /\
    _isSyncing (fields w') = false /\
    pending w' = [mkTimer 1%nat 30 ReleaseSync].
Proof.
  split; [vm_compute; reflexivity|].
  eexists. split.
  - apply (inbound_line_without_editor closed_world 3); vm_compute; reflexivity.
  - split; vm_compute; reflexivity.
Defined.

Lemma inbound_line_reveal_fails_witness :
  exists w',
    syncToEditor 7 unrevealable_world = (Returned tt, w', []) /\
    _currentLine (fields w') = 0 /\
    _isSyncing (fields w') = true.
Proof.
  destruct (inbound_line_reveal_fails unrevealable_world 7 failing_editor)
    as (w' & Hrun & Hc & Hs & _).
  - vm_compute. reflexivity.
  - vm_compute. reflexivity.
  - reflexivity.
  - exists w'. split; [exact Hrun|]. split; [exact Hc | exact Hs].
Defined.

Lemma disabled_manager_still_follows_preview_witness :
  exists w1 w2,
    disable idle_world = (Returned tt, w1, []) /\
    exec (onDidReceiveMessage (previewScrolledToLine 42)) w1
      = (w2, [RevealRange sample_editor (range_at 9)]) /\
    _isEnabled (fields w2) = false.
Proof.
  destruct (disabled_manager_still_follows_preview idle_world 42 sample_editor)
    as (w1 & w2 & H1 & H2 & H3 & _).
  - apply reach_start.
  - vm_compute. reflexivity.
  - reflexivity.
  - exists w1, w2. split; [exact H1|]. split; [exact H2 | exact H3].
Defined.

Lemma editor_echo_of_inbound_line_dropped_witness :
  exists w1 w2,
    exec (syncToEditor 42) idle_world = (w1, [RevealRange sample_editor (range_at 9)]) /\
    handleEditorScroll (editor_at 9) w1 = (Returned tt, w1, []) /\
    exec (run_callback ReleaseSync) w1 = (w2, []) /\
    handleEditorScroll (editor_at 9) w2 = (Returned tt, w2, []).
Proof.
  destruct (editor_echo_of_inbound_line_dropped idle_world 42 sample_editor (editor_at 9)
              (range_at 9) [])
    as (w1 & w2 & H1 & H2 & H3 & _ & H4).
  - vm_compute. reflexivity.
  - vm_compute. reflexivity.
  - reflexivity.
  - reflexivity.
  - vm_compute. reflexivity.
  - exists w1, w2. split; [exact H1|]. split; [exact H2|]. split; [exact H3 | exact H4].
Defined.

Lemma host_post_records_line_and_arms_lock_witness :
  _currentLine (fields outbound_world) = 3 /\
  _syncSource (fields outbound_world) = Some editor /\
  In (mkTimer 1%nat 30 ReleaseSync) (pending outbound_world).
Proof.
  destruct (host_post_records_line_and_arms_lock idle_world (OnVisibleRanges (editor_at 3))
              outbound_world [PostMessage 3] 3)
    as (_ & _ & _ & _ & Hc & _ & Hsrc & _ & Hin).
  - vm_compute. reflexivity.
  - left. reflexivity.
  - split; [exact Hc|]. split; [exact Hsrc | exact Hin].
Defined.

End HostMore.

(* ================================================================== *)
(** ** Further properties: events that find the lock held             *)
(* ================================================================== *)

(** X20. A scroll event that finds the page's lock held with source
    [editor] is a turn of the loop without effect: [handleScroll]
    returns at once, no message is sent, no timer is set and no field
    changes.  While the manager's lock is held with source [preview],
    the same holds of [handleEditorScroll] and of the visible-ranges
    listener around it, for every editor. *)
Theorem echo_suppressed_while_locked :
  (forall w : Render.W,
     Render.isSyncing (fields w) = true ->
     Render.syncSource (fields w) = Some editor ->
     Render.handleScroll w = (Returned tt, w, []) /\
     Render.step Render.OnScroll w = Some (w, [])) /\
  (forall (w : Host.W) (ed : Host.TextEditor),
     Host._isSyncing (fields w) = true ->
     Host._syncSource (fields w) = Some preview ->
     Host.handleEditorScroll ed w = (Returned tt, w, []) /\
     Host.onDidChangeTextEditorVisibleRanges ed w = (Returned tt, w, []) /\
     Host.step (Host.OnVisibleRanges ed) w = Some (w, [])).
Proof.
  split.
  - intros w Hs Hsrc.
    assert (Hrun : Render.handleScroll w = (Returned tt, w, [])).
    { unfold Render.handleScroll. js_unfold. cbn.
      destruct (Render.isEnabled (fields w)); cbn; [|reflexivity].
      rewrite Hs, Hsrc. reflexivity. }
    split; [exact Hrun|].
    cbn [Render.step]. unfold Render.exec. rewrite Hrun. reflexivity.
  - intros w ed Hs Hsrc.
    assert (Hrun : Host.handleEditorScroll ed w = (Returned tt, w, [])).
    { unfold Host.handleEditorScroll. js_unfold. cbn.
      destruct (Host._isEnabled (fields w)); cbn; [|reflexivity].
      destruct (Host.same_document _ _); cbn; [|reflexivity].
      rewrite Hs, Hsrc. reflexivity. }
    assert (Hl : Host.onDidChangeTextEditorVisibleRanges ed w = (Returned tt, w, [])).
    { rewrite HostFacts.onDidChange_run. rewrite Hrun. destruct (Host.same_document _ _); reflexivity. }
    split; [exact Hrun|]. split; [exact Hl|].
    cbn [Host.step]. unfold Host.exec. rewrite Hl. reflexivity.
Qed.

Lemma echo_suppressed_while_locked_witness :
  Render.step Render.OnScroll Render.line7_world = Some (Render.line7_world, []) /\
  Host.step (Host.OnVisibleRanges (Host.editor_at 8)) Host.inbound_world
    = Some (Host.inbound_world, []).
Proof.
  destruct echo_suppressed_while_locked as [HR HH]. split.
  - apply (HR Render.line7_world); reflexivity.
  - apply (HH Host.inbound_world (Host.editor_at 8)); reflexivity.
Defined.
